(** * Sheet-metal development drawing (cad.py): model and properties

    The script cad.py computes the geometry of a flat pattern (edges, a bowed
    right edge given by a profile, holes at stations, a dashed bending line)
    and hands it to the ezdxf drawing library.  This file embeds the script
    from the layer table to the last note, and proves properties of it.

    Numbers.  The script computes with Python floats.  The definitions below
    are written once, over an interface [Number] of the arithmetic the script
    uses, and are run at two instances:
      - [float]: IEEE 754 binary64, the arithmetic Python really uses;
      - [Q]: exact rationals, for the algebraic facts that hold exactly
        only without rounding.

    The drawing library.  Of ezdxf the model keeps what the script relies
    on: a document is a layer table and a modelspace to which entities are
    appended, and [Vec2.lerp] interpolates linearly.  Writing the file
    ([doc.saveas]) and the final [print] are outside the model. *)

From Stdlib Require Import ZArith QArith Bool List Lia Lqa Permutation.
From Stdlib Require Import String DecimalString.
From Stdlib Require Import Floats.
Import ListNotations.

(** ** Exceptions and results *)

(** The exceptions the script can raise: [IndexError] from indexing an empty
    profile, [ValueError] and [OverflowError] from [int(y)] on a NaN and on
    an infinity.  [ConfigurationError] is the error class named by the
    specification; no path of the script raises it. *)
Inductive exn : Type :=
| IndexError
| ValueError
| OverflowError
| ConfigurationError (field : string).

Inductive result (A : Type) : Type :=
| Ok (a : A)
| Raise (e : exn).
Arguments Ok {A} a.
Arguments Raise {A} e.

Definition result_bind {A B} (r : result A) (k : A -> result B) : result B :=
  match r with
  | Ok a => k a
  | Raise e => Raise e
  end.

Notation "x <- r ;; k" := (result_bind r (fun x => k))
  (at level 61, r at next level, right associativity).

(** ** The arithmetic used by the script *)

Class Number (R : Type) : Type := {
  lit    : Z -> R;            (* a numeric literal or a small Python int *)
  nadd   : R -> R -> R;
  nsub   : R -> R -> R;
  nmul   : R -> R -> R;
  ndiv   : R -> R -> R;       (* true division, only used with a non-zero divisor *)
  nleb   : R -> R -> bool;    (* <= *)
  neqb   : R -> R -> bool;    (* == *)
  to_int : R -> result Z      (* int(y): truncation towards zero, or an exception *)
}.

Declare Scope num_scope.
Delimit Scope num_scope with num.
Notation "x + y" := (nadd x y) : num_scope.
Notation "x - y" := (nsub x y) : num_scope.
Notation "x * y" := (nmul x y) : num_scope.
Notation "x / y" := (ndiv x y) : num_scope.
Notation "x <=? y" := (nleb x y) : num_scope.
Notation "x =? y" := (neqb x y) : num_scope.

(** Exact rationals. *)
#[export] Instance Q_Number : Number Q := {|
  lit    := inject_Z;
  nadd   := Qplus;
  nsub   := Qminus;
  nmul   := Qmult;
  ndiv   := Qdiv;
  nleb   := Qle_bool;
  neqb   := Qeq_bool;
  to_int := fun q => Ok (Z.quot (Qnum q) (Zpos (Qden q)))
|}.

(** binary64.  [float_of_Z] is exact for |z| < 2^53, which covers every
    literal, loop index and shipped value of the script; beyond that a
    Python int has no counterpart among the numbers of the model. *)
Definition float_of_Z (z : Z) : float :=
  match z with
  | Z0 => PrimFloat.zero
  | Zpos _ => PrimFloat.of_uint63 (Uint63.of_Z z)
  | Zneg p => PrimFloat.opp (PrimFloat.of_uint63 (Uint63.of_Z (Zpos p)))
  end.

(** [int(f)] of a Python float: ValueError on a NaN, OverflowError on an
    infinity, the truncation towards zero otherwise. *)
Definition float_to_int (f : float) : result Z :=
  match Prim2SF f with
  | S754_nan => Raise ValueError
  | S754_infinity _ => Raise OverflowError
  | S754_zero _ => Ok 0%Z
  | S754_finite s m e =>
      let a := match e with
               | Zneg k => Z.shiftr (Zpos m) (Zpos k)
               | _ => Z.shiftl (Zpos m) e
               end in
      Ok (if s then Z.opp a else a)
  end.

#[export] Instance float_Number : Number float := {|
  lit    := float_of_Z;
  nadd   := PrimFloat.add;
  nsub   := PrimFloat.sub;
  nmul   := PrimFloat.mul;
  ndiv   := PrimFloat.div;
  nleb   := PrimFloat.leb;
  neqb   := PrimFloat.eqb;
  to_int := float_to_int
|}.

(** [l[0]] and [l[-1]] of a Python list. *)
Definition index_first {A} (l : list A) : result A :=
  match l with
  | [] => Raise IndexError
  | a :: _ => Ok a
  end.

Fixpoint index_last {A} (l : list A) : result A :=
  match l with
  | [] => Raise IndexError
  | [a] => Ok a
  | _ :: l' => index_last l'
  end.

(** ** ezdxf's Vec2 *)

Module Vec2.
Record t (R : Type) : Type := mk { x : R; y : R }.
Arguments mk {R} _ _.
Arguments x {R} _.
Arguments y {R} _.

(** [self.lerp(other, factor)], a method of the library:
    self + (other - self) * factor, per coordinate. *)
Definition lerp {R} `{Number R} (self other : t R) (factor : R) : t R :=
  mk (x self + (x other - x self) * factor)%num
     (y self + (y other - y self) * factor)%num.
End Vec2.

(** A profile point is a pair (y_from_top, x_from_left). *)
Abbreviation point R := (R * R)%type (only parsing).

Section Interpolation.
Context {R : Type} `{Number R}.
Local Open Scope num_scope.

(** [sorted(l, key=lambda t: t[0])]: Python's sort is stable, which
    determines the result when the keys are numbers.  [insert_by_key p l]
    puts [p] in front of the first element whose key is not smaller.  With a
    NaN among the keys the result of Python's sort depends on its algorithm
    and is not modelled: the properties below that go through [sorted]
    assume that the breakpoints are numbers. *)
Fixpoint insert_by_key (p : point R) (l : list (point R)) : list (point R) :=
  match l with
  | [] => [p]
  | q :: l' => if fst p <=? fst q then p :: q :: l'
               else q :: insert_by_key p l'
  end.

Definition sorted (l : list (point R)) : list (point R) :=
  fold_right insert_by_key [] l.

(** The body of the span search, for one pair of consecutive points. *)
Definition span_x (p0 p1 : point R) (y_query : R) : R :=
  let '(y0, x0) := p0 in
  let '(y1, x1) := p1 in
  let t := if negb (y1 =? y0) then (y_query - y0) / (y1 - y0) else lit 0 in
  x0 + t * (x1 - x0).

(** [for (y0, x0), (y1, x1) in zip(rp, rp[1:]): if y0 <= y_query <= y1: return ...]
    with [None] when the loop ends without returning. *)
Fixpoint find_span (spans : list (point R * point R)) (y_query : R) : option R :=
  match spans with
  | [] => None
  | (p0, p1) :: spans' =>
      if (fst p0 <=? y_query) && (y_query <=? fst p1)
      then Some (span_x p0 p1 y_query)
      else find_span spans' y_query
  end.

Definition right_x_at (right_edge_profile : list (point R)) (y_query : R) : result R :=
  let rp := sorted right_edge_profile in
  first <- index_first rp ;;
  if y_query <=? fst first then Ok (snd first) else
  last <- index_last rp ;;
  if fst last <=? y_query then Ok (snd last) else
  match find_span (combine rp (tl rp)) y_query with
  | Some v => Ok v
  | None => Ok (snd last)
  end.
End Interpolation.

(** ** The drawing document *)

(** The entities the script creates in the modelspace, with the attributes it
    sets. *)
Inductive entity (R : Type) : Type :=
| Line (a b : Vec2.t R) (layer : string)
| Circle (center : Vec2.t R) (r : R) (layer : string)
| Spline (fit_points : list (Vec2.t R)) (layer : string)
| Text (text : string) (insert : Vec2.t R) (height : R) (layer : string).
Arguments Line {R} a b layer.
Arguments Circle {R} center r layer.
Arguments Spline {R} fit_points layer.
Arguments Text {R} text insert height layer.

(** The document under construction: the layer table (name, colour) and the
    modelspace, both in creation order. *)
Record Doc (R : Type) : Type := mkDoc {
  layers : list (string * Z);
  msp : list (entity R)
}.
Arguments mkDoc {R} _ _.
Arguments layers {R} _.
Arguments msp {R} _.

(** [ezdxf.new(setup=True)]: an empty modelspace; the layers a new document
    starts with play no role below. *)
Definition ezdxf_new {R} : Doc R :=
  mkDoc [("0", 7%Z); ("Defpoints", 7%Z)]%string [].

(** [str.upper] on ASCII letters. *)
Definition upper_ascii (c : Ascii.ascii) : Ascii.ascii :=
  let n := Ascii.nat_of_ascii c in
  if (97 <=? n)%nat && (n <=? 122)%nat then Ascii.ascii_of_nat (n - 32) else c.

Fixpoint upper (s : string) : string :=
  match s with
  | EmptyString => EmptyString
  | String c s' => String (upper_ascii c) (upper s')
  end.

(** ** The PARAMETERS section *)

Record Params (R : Type) : Type := mkParams {
  UNITS : string;
  overall_len : R;
  top_left_flange : R;
  top_right_flange : R;
  bot_left_return : R;
  bot_right_width : R;
  bottom_gauge_width : R;
  left_x : R;
  right_edge_profile : list (point R);
  stations : list R;
  hole_offset_from_left : R;
  hole_offset_from_right : R;
  hole_dia : R;
  bending_line_y : R;
  txt_h : R
}.
Arguments mkParams {R}.
Arguments UNITS {R} _.
Arguments overall_len {R} _.
Arguments top_left_flange {R} _.
Arguments top_right_flange {R} _.
Arguments bot_left_return {R} _.
Arguments bot_right_width {R} _.
Arguments bottom_gauge_width {R} _.
Arguments left_x {R} _.
Arguments right_edge_profile {R} _.
Arguments stations {R} _.
Arguments hole_offset_from_left {R} _.
Arguments hole_offset_from_right {R} _.
Arguments hole_dia {R} _.
Arguments bending_line_y {R} _.
Arguments txt_h {R} _.

Section Build.
Context {R : Type} `{Number R}.
Local Open Scope num_scope.

(** Statements of the script: they update the document and may raise.  The
    document is returned in both cases, so that what was drawn before an
    exception stays visible. *)
Definition M (A : Type) : Type := Doc R -> result A * Doc R.

Definition ret {A} (a : A) : M A := fun d => (Ok a, d).

Definition bind {A B} (m : M A) (k : A -> M B) : M B :=
  fun d => match m d with
           | (Ok a, d') => k a d'
           | (Raise e, d') => (Raise e, d')
           end.

Definition lift {A} (r : result A) : M A := fun d => (r, d).

Notation "x <-- m ;; k" := (bind m (fun x => k))
  (at level 61, m at next level, right associativity).
Notation "m ;;; k" := (bind m (fun _ => k))
  (at level 61, right associativity).

(** [for a in l: body(a)] *)
Fixpoint for_each {A} (l : list A) (body : A -> M unit) : M unit :=
  match l with
  | [] => ret tt
  | a :: l' => body a ;;; for_each l' body
  end.

(** The drawing operations used by the script. *)
Definition add_entity (e : entity R) : M unit :=
  fun d => (Ok tt, mkDoc (layers d) (msp d ++ [e])).

Definition add_line (a b : Vec2.t R) (layer : string) : M unit :=
  add_entity (Line a b layer).

(** [name in doc.layers]: the library compares layer names without regard
    to case (modelled on ASCII letters). *)
Definition in_layers (name : string) (ls : list (string * Z)) : bool :=
  existsb (fun l => String.eqb (upper (fst l)) (upper name)) ls.

(** [if name not in doc.layers: doc.layers.add(name, color=color)] *)
Definition add_layer_if_absent (name : string) (color : Z) : M unit :=
  fun d => if in_layers name (layers d) then (Ok tt, d)
           else (Ok tt, mkDoc (layers d ++ [(name, color)]) (msp d)).

(** *** Helper functions of the script *)

Definition add_circle (center : Vec2.t R) (d : R) (layer : string) : M unit :=
  let r := d / lit 2 in
  add_entity (Circle center r layer).

Definition add_text (text : string) (insert : Vec2.t R) (layer : string)
    (height : R) : M unit :=
  add_entity (Text text insert height layer).

Definition spline_from_points (pts : list (Vec2.t R)) (layer : string) : M unit :=
  add_entity (Spline pts layer).

Definition segs : Z := 80.

(** [range(n)] *)
Definition range (n : Z) : list Z := map Z.of_nat (seq 0 (Z.to_nat n)).

(** One iteration of the loop of [dashed_line]; returns the new value of
    the flag [on]. *)
Definition dashed_step (p1 p2 : Vec2.t R) (layer : string) (on : bool) (i : Z) : M bool :=
  let t0 := lit i / lit segs in
  let t1 := lit (i + 1) / lit segs in
  let a := Vec2.lerp p1 p2 t0 in
  let b := Vec2.lerp p1 p2 t1 in
  (if on then add_line a b layer else ret tt) ;;;
  ret (negb on).

Fixpoint dashed_loop (p1 p2 : Vec2.t R) (layer : string) (on : bool) (indices : list Z) : M unit :=
  match indices with
  | [] => ret tt
  | i :: rest => on' <-- dashed_step p1 p2 layer on i ;; dashed_loop p1 p2 layer on' rest
  end.

Definition dashed_line (p1 p2 : Vec2.t R) (layer : string) : M unit :=
  dashed_loop p1 p2 layer true (range segs).

(** [f"{int(y)}"] *)
Definition format_int (y : R) : result string :=
  z <- to_int y ;; Ok (NilZero.string_of_int (Z.to_int z)).

(** *** BUILD DXF: the script from the layer table to the notes *)
Definition build (p : Params R) : M unit :=
  for_each [("OUTLINE", 7%Z); ("HOLES_L", 3%Z); ("HOLES_R", 5%Z);
            ("CENTER", 2%Z); ("NOTES", 1%Z)]%string
    (fun nc => add_layer_if_absent (fst nc) (snd nc)) ;;;
  let top_y := lit 0 in
  let bot_y := overall_len p in
  let left_top := Vec2.mk (left_x p) top_y in
  let left_bot := Vec2.mk (left_x p) bot_y in
  let top_left_in := Vec2.mk (left_x p + top_left_flange p) top_y in
  let top_right :=
    Vec2.mk (left_x p + top_left_flange p + lit 300 + top_right_flange p) top_y in
  let top_right :=
    match right_edge_profile p with
    | [] => top_right
    | first :: _ => Vec2.mk (snd first) (fst first)
    end in
  let bot_left_out := Vec2.mk (bot_left_return p) bot_y in
  last <-- lift (index_last (right_edge_profile p)) ;;
  let bot_right_pt := Vec2.mk (snd last) (fst last) in
  add_line left_top left_bot "OUTLINE" ;;;
  add_line left_top top_left_in "OUTLINE" ;;;
  add_line top_left_in top_right "OUTLINE" ;;;
  let right_pts := map (fun yx => Vec2.mk (snd yx) (fst yx)) (right_edge_profile p) in
  spline_from_points right_pts "OUTLINE" ;;;
  add_line bot_right_pt bot_left_out "OUTLINE" ;;;
  add_line bot_left_out left_bot "OUTLINE" ;;;
  for_each (stations p) (fun y =>
    let cx := left_x p + hole_offset_from_left p in
    let cy := y in
    add_circle (Vec2.mk cx cy) (hole_dia p) "HOLES_L") ;;;
  for_each (stations p) (fun y =>
    edge_x <-- lift (right_x_at (right_edge_profile p) y) ;;
    let cx := edge_x - hole_offset_from_right p in
    let cy := y in
    add_circle (Vec2.mk cx cy) (hole_dia p) "HOLES_R") ;;;
  last_pt <-- lift (index_last right_pts) ;;
  dashed_line (Vec2.mk (left_x p) (bending_line_y p))
              (Vec2.mk (Vec2.x last_pt) (bending_line_y p)) "CENTER" ;;;
  add_text "Bending line"
           (Vec2.mk (left_x p + lit 10) (bending_line_y p + lit 12)) "NOTES" (txt_h p) ;;;
  for_each (stations p) (fun y =>
    add_line (Vec2.mk (left_x p - lit 8) y) (Vec2.mk (left_x p) y) "CENTER" ;;;
    label <-- lift (format_int y) ;;
    add_text label (Vec2.mk (left_x p - lit 40) (y - lit 3)) "NOTES" (lit 8)) ;;;
  add_text (String.append "Units: " (UNITS p))
           (Vec2.mk (lit 10) (overall_len p + lit 40)) "NOTES" (lit 8) ;;;
  add_text "Development View"
           (Vec2.mk (lit 10) (overall_len p + lit 20)) "NOTES" (lit 10).

(** A run of the script: a fresh document, then the build. *)
Definition run (p : Params R) : result unit * Doc R := build p ezdxf_new.

(** The values of the PARAMETERS section as the script ships them. *)
Definition default_params : Params R :=
  let top_left_flange := lit 35 in
  let bottom_gauge_width := lit 345 in
  {| UNITS := "mm";
     overall_len := lit 1670;
     top_left_flange := top_left_flange;
     top_right_flange := lit 16;
     bot_left_return := lit 83;
     bot_right_width := lit 330;
     bottom_gauge_width := bottom_gauge_width;
     left_x := lit 0;
     right_edge_profile :=
       [ (lit 0, top_left_flange + lit 350);
         (lit 235, lit 360);
         (lit 435, lit 368);
         (lit 635, lit 372);
         (lit 835, lit 374);
         (lit 1035, lit 372);
         (lit 1235, lit 368);
         (lit 1435, lit 360);
         (lit 1635, bottom_gauge_width) ];
     stations := map lit [55; 285; 515; 835; 1155; 1385; 1615]%Z;
     hole_offset_from_left := lit 20;
     hole_offset_from_right := lit 20;
     hole_dia := lit 14;
     bending_line_y := lit 1385;
     txt_h := lit 10 |}.
End Build.

(** ** Vocabulary of the properties *)

(** What the order of a number type must satisfy for the searches of
    [right_x_at] to behave.  A value [x] with [x <=? x = true] is a number
    (for binary64: not a NaN); on [Q] every value is. *)
Class NumberOrder (R : Type) `{Number R} : Prop := {
  nleb_trans : forall a b c : R,
    (a <=? b)%num = true -> (b <=? c)%num = true -> (a <=? c)%num = true;
  nleb_total : forall a b : R,
    (a <=? a)%num = true -> (b <=? b)%num = true ->
    (a <=? b)%num = false -> (b <=? a)%num = true;
  nleb_number : forall a b : R,
    (a <=? b)%num = true -> (a <=? a)%num = true /\ (b <=? b)%num = true;
  neqb_nleb : forall a b : R,
    (a =? b)%num = (a <=? b)%num && (b <=? a)%num
}.

Section Vocabulary.
Context {R : Type} `{Number R}.
Local Open Scope num_scope.

Definition is_number (x : R) : Prop := (x <=? x) = true.

(** [a < b] *)
Definition nltb (a b : R) : bool := (a <=? b) && negb (b <=? a).

(** The profile is sorted ascending by its first component. *)
Fixpoint ascending (l : list (point R)) : bool :=
  match l with
  | [] => true
  | p :: l' =>
      match l' with
      | [] => true
      | q :: _ => (fst p <=? fst q) && ascending l'
      end
  end.

(** Centre and radius of the circles of a layer, in drawing order. *)
Fixpoint circles_on (layer : string) (es : list (entity R)) : list (Vec2.t R * R) :=
  match es with
  | [] => []
  | Circle c r l :: es' =>
      if String.eqb l layer then (c, r) :: circles_on layer es'
      else circles_on layer es'
  | _ :: es' => circles_on layer es'
  end.

(** End points of the lines of a layer, in drawing order. *)
Fixpoint lines_on (layer : string) (es : list (entity R)) : list (Vec2.t R * Vec2.t R) :=
  match es with
  | [] => []
  | Line a b l :: es' =>
      if String.eqb l layer then (a, b) :: lines_on layer es'
      else lines_on layer es'
  | _ :: es' => lines_on layer es'
  end.

(** The elements of [l] met while the flag is on, the flag toggling after
    every element. *)
Fixpoint alternate {A} (on : bool) (l : list A) : list A :=
  match l with
  | [] => []
  | a :: l' => if on then a :: alternate (negb on) l' else alternate (negb on) l'
  end.

(** The sub-segment of the dashed line over the interval [i]. *)
Definition dash (p1 p2 : Vec2.t R) (layer : string) (i : Z) : entity R :=
  Line (Vec2.lerp p1 p2 (lit i / lit segs))
       (Vec2.lerp p1 p2 (lit (i + 1) / lit segs)) layer.

(** What a call of [dashed_line] draws into an empty modelspace. *)
Definition drawn_by_dashed_line (p1 p2 : Vec2.t R) : list (Vec2.t R * Vec2.t R) :=
  lines_on "CENTER" (msp (snd (dashed_line p1 p2 "CENTER" ezdxf_new))).

(** Profiles used as examples: the two-point profile of the interpolation
    example; two points on one breakpoint; a profile with a vertical step
    at 5; a profile with breakpoints 0 < 1 < 2 and offsets 1/2, 1/10, 3/10. *)
Definition two_point_profile : list (point R) :=
  [(lit 0, lit 350); (lit 1000, lit 400)].

Definition tied_profile : list (point R) :=
  [(lit 5, lit 1); (lit 5, lit 2)].

Definition stepped_profile : list (point R) :=
  [(lit 0, lit 0); (lit 5, lit 1); (lit 5, lit 2); (lit 10, lit 3)].

Definition bent_profile : list (point R) :=
  [(lit 0, lit 1 / lit 2); (lit 1, lit 1 / lit 10); (lit 2, lit 3 / lit 10)].

(** A parameter set with another right-edge profile, another top right
    lip, or other stations. *)
Definition with_profile (rp : list (point R)) (p : Params R) : Params R :=
  mkParams (UNITS p) (overall_len p) (top_left_flange p) (top_right_flange p)
    (bot_left_return p) (bot_right_width p) (bottom_gauge_width p) (left_x p)
    rp (stations p) (hole_offset_from_left p) (hole_offset_from_right p)
    (hole_dia p) (bending_line_y p) (txt_h p).

Definition with_top_right_flange (w : R) (p : Params R) : Params R :=
  mkParams (UNITS p) (overall_len p) (top_left_flange p) w
    (bot_left_return p) (bot_right_width p) (bottom_gauge_width p) (left_x p)
    (right_edge_profile p) (stations p) (hole_offset_from_left p)
    (hole_offset_from_right p) (hole_dia p) (bending_line_y p) (txt_h p).

Definition with_stations (l : list R) (p : Params R) : Params R :=
  mkParams (UNITS p) (overall_len p) (top_left_flange p) (top_right_flange p)
    (bot_left_return p) (bot_right_width p) (bottom_gauge_width p) (left_x p)
    (right_edge_profile p) l (hole_offset_from_left p)
    (hole_offset_from_right p) (hole_dia p) (bending_line_y p) (txt_h p).

(** The value of [right_x_at] where it returns one. *)
Definition edge_x (profile : list (point R)) (y : R) : R :=
  match right_x_at profile y with
  | Ok v => v
  | Raise _ => lit 0
  end.

(** A statement [m] draws [es] and returns [a]: from every document it
    completes with [a] and leaves the modelspace extended by [es]. *)
Definition draws {A} (m : M A) (a : A) (es : list (entity R)) : Prop :=
  forall d, fst (m d) = Ok a /\ msp (snd (m d)) = msp d ++ es.

(** A statement [m] fails with [e] after drawing [es]. *)
Definition fails {A} (m : M A) (e : exn) (es : list (entity R)) : Prop :=
  forall d, fst (m d) = Raise e /\ msp (snd (m d)) = msp d ++ es.

(** A statement [m] ends with [r], be it a value or an exception, after
    drawing [es]. *)
Definition emits {A} (m : M A) (r : result A) (es : list (entity R)) : Prop :=
  forall d, fst (m d) = r /\ msp (snd (m d)) = msp d ++ es.

(** The layer table has an entry of exactly this name. *)
Definition has_layer (name : string) (d : Doc R) : bool :=
  existsb (fun l => String.eqb (fst l) name) (layers d).

(** The text of a station label, where [int(y)] returns. *)
Definition label (y : R) : string :=
  match format_int y with
  | Ok s => s
  | Raise _ => EmptyString
  end.

(** The entities of a complete build, in drawing order, for a profile
    whose first and last points are [first] and [last]. *)
Definition outline (p : Params R) (first last : point R) : list (entity R) :=
  let left_top := Vec2.mk (left_x p) (lit 0) in
  let left_bot := Vec2.mk (left_x p) (overall_len p) in
  let top_left_in := Vec2.mk (left_x p + top_left_flange p) (lit 0) in
  let bot_left_out := Vec2.mk (bot_left_return p) (overall_len p) in
  [ Line left_top left_bot "OUTLINE";
    Line left_top top_left_in "OUTLINE";
    Line top_left_in (Vec2.mk (snd first) (fst first)) "OUTLINE";
    Spline (map (fun yx => Vec2.mk (snd yx) (fst yx)) (right_edge_profile p)) "OUTLINE";
    Line (Vec2.mk (snd last) (fst last)) bot_left_out "OUTLINE";
    Line bot_left_out left_bot "OUTLINE" ].

Definition left_hole (p : Params R) (y : R) : entity R :=
  Circle (Vec2.mk (left_x p + hole_offset_from_left p) y)
         (hole_dia p / lit 2) "HOLES_L".

Definition right_hole (p : Params R) (y : R) : entity R :=
  Circle (Vec2.mk (edge_x (right_edge_profile p) y - hole_offset_from_right p) y)
         (hole_dia p / lit 2) "HOLES_R".

Definition bending_line (p : Params R) (last : point R) : list (entity R) :=
  map (dash (Vec2.mk (left_x p) (bending_line_y p))
            (Vec2.mk (snd last) (bending_line_y p)) "CENTER")
      (alternate true (range segs))
  ++ [ Text "Bending line"
            (Vec2.mk (left_x p + lit 10) (bending_line_y p + lit 12))
            (txt_h p) "NOTES" ].

Definition tick_line (p : Params R) (y : R) : entity R :=
  Line (Vec2.mk (left_x p - lit 8) y) (Vec2.mk (left_x p) y) "CENTER".

Definition tick_label (p : Params R) (y : R) : entity R :=
  Text (label y) (Vec2.mk (left_x p - lit 40) (y - lit 3)) (lit 8) "NOTES".

Definition station_tick (p : Params R) (y : R) : list (entity R) :=
  [ tick_line p y; tick_label p y ].

(** How the loop over the stations ends, and what it has drawn by then: at
    the first station on which [int(y)] raises, the tick of that station is
    drawn, its label is not, and the loop stops. *)
Fixpoint ticks_outcome (l : list R) : result unit :=
  match l with
  | [] => Ok tt
  | y :: l' =>
      match format_int y with
      | Ok _ => ticks_outcome l'
      | Raise e => Raise e
      end
  end.

Fixpoint ticks_drawn (p : Params R) (l : list R) : list (entity R) :=
  match l with
  | [] => []
  | y :: l' =>
      match format_int y with
      | Ok _ => tick_line p y :: tick_label p y :: ticks_drawn p l'
      | Raise _ => [tick_line p y]
      end
  end.

Definition notes (p : Params R) : list (entity R) :=
  [ Text (String.append "Units: " (UNITS p))
         (Vec2.mk (lit 10) (overall_len p + lit 40)) (lit 8) "NOTES";
    Text "Development View"
         (Vec2.mk (lit 10) (overall_len p + lit 20)) (lit 10) "NOTES" ].

Definition drawing (p : Params R) (first last : point R) : list (entity R) :=
  outline p first last
  ++ map (left_hole p) (stations p)
  ++ map (right_hole p) (stations p)
  ++ bending_line p last
  ++ flat_map (station_tick p) (stations p)
  ++ notes p.

(** The entities of a build that got past the corners, complete or stopped
    in the loop over the stations. *)
Definition drawn (p : Params R) (first last : point R) : list (entity R) :=
  outline p first last
  ++ map (left_hole p) (stations p)
  ++ map (right_hole p) (stations p)
  ++ bending_line p last
  ++ ticks_drawn p (stations p)
  ++ match ticks_outcome (stations p) with
     | Ok _ => notes p
     | Raise _ => []
     end.

(** The layer table after the loop over the five layers. *)
Fixpoint register (l ls : list (string * Z)) : list (string * Z) :=
  match l with
  | [] => ls
  | nc :: l' =>
      register l' (if in_layers (fst nc) ls then ls else ls ++ [(fst nc, snd nc)])
  end.

(** The end-to-end scenario: the shipped parameters with [overall_len],
    [right_edge_profile], [stations] and the two hole offsets replaced. *)
Definition scenario : Params R :=
  let d := default_params in
  mkParams (UNITS d) (lit 1000) (top_left_flange d) (top_right_flange d)
    (bot_left_return d) (bot_right_width d) (bottom_gauge_width d) (left_x d)
    [(lit 0, lit 350); (lit 1000, lit 400)] [lit 500] (lit 20) (lit 20)
    (hole_dia d) (bending_line_y d) (txt_h d).
End Vocabulary.

(** Coordinate-wise numeric equality of points over [Q]. *)
Definition Vec2_eq (a b : Vec2.t Q) : Prop :=
  Vec2.x a == Vec2.x b /\ Vec2.y a == Vec2.y b.

(** Squared length of a segment over [Q]. *)
Definition sq_length (ab : Vec2.t Q * Vec2.t Q) : Q :=
  let (a, b) := ab in
  (Vec2.x b - Vec2.x a) * (Vec2.x b - Vec2.x a)
  + (Vec2.y b - Vec2.y a) * (Vec2.y b - Vec2.y a).

(** The exact value of a finite binary64 number (0 for infinities and NaN,
    which do not occur where this is used). *)
Definition float_to_Q (f : float) : Q :=
  match Prim2SF f with
  | S754_finite s m e =>
      let v := match e with
               | Zneg k => Zpos m # (2 ^ k)
               | _ => inject_Z (Zpos m * 2 ^ e)
               end in
      if s then Qopp v else v
  | _ => 0
  end.

Definition Vec2_to_Q (a : Vec2.t float) : Vec2.t Q :=
  Vec2.mk (float_to_Q (Vec2.x a)) (float_to_Q (Vec2.y a)).

(** ** Vocabulary of the further properties *)

(** The layer table the script registers, in script order. *)
Definition script_layers : list (string * Z) :=
  [("OUTLINE", 7%Z); ("HOLES_L", 3%Z); ("HOLES_R", 5%Z);
   ("CENTER", 2%Z); ("NOTES", 1%Z)]%string.

Section FurtherVocabulary.
Context {R : Type} `{Number R}.
Local Open Scope num_scope.

(** The layer an entity is drawn on. *)
Definition layer_of (e : entity R) : string :=
  match e with
  | Line _ _ l => l
  | Circle _ _ l => l
  | Spline _ l => l
  | Text _ _ _ l => l
  end.

(** The entities of a layer, in drawing order. *)
Definition entities_on (layer : string) (es : list (entity R)) : list (entity R) :=
  filter (fun e => String.eqb (layer_of e) layer) es.

(** Content, insertion point and height of the texts, in drawing order. *)
Fixpoint texts (es : list (entity R)) : list (string * Vec2.t R * R) :=
  match es with
  | [] => []
  | Text s c h _ :: es' => (s, c, h) :: texts es'
  | _ :: es' => texts es'
  end.

(** A statement that leaves the layer table as it is. *)
Definition keeps_layers {A} (m : M (R := R) A) : Prop :=
  forall d, layers (snd (m d)) = layers d.

(** Any two points of the profile are the same point or have breakpoints
    one strictly below the other. *)
Definition distinct_breakpoints (rp : list (point R)) : Prop :=
  forall p q, In p rp -> In q rp ->
    p = q \/ nltb (fst p) (fst q) = true \/ nltb (fst q) (fst p) = true.
End FurtherVocabulary.

(** [v] lies between [a] and [b], whichever is the larger. *)
Definition Qbetween (a v b : Q) : Prop :=
  (a <= v /\ v <= b) \/ (b <= v /\ v <= a).

(** * Properties *)

(** ** The two number types satisfy the order laws *)

#[export] Instance Q_NumberOrder : NumberOrder Q.
Proof.
  constructor; cbn.
  - intros a b c Hab Hbc. apply Qle_bool_iff in Hab, Hbc.
    apply Qle_bool_iff. now apply Qle_trans with b.
  - intros a b _ _ Hab. apply Qle_bool_iff.
    destruct (Qlt_le_dec b a) as [Hlt | Hle].
    + now apply Qlt_le_weak.
    + apply Qle_bool_iff in Hle. congruence.
  - intros a b _. split; apply Qle_bool_iff, Qle_refl.
  - intros a b. apply eq_true_iff_eq.
    rewrite andb_true_iff, Qeq_bool_iff, !Qle_bool_iff. split.
    + intros E. rewrite E. split; apply Qle_refl.
    + intros [H1 H2]. now apply Qle_antisym.
Qed.

Ltac compare_cases :=
  repeat match goal with
  | H : context [Z.compare ?a ?b] |- _ => destruct (Z.compare_spec a b)
  | |- context [Z.compare ?a ?b] => destruct (Z.compare_spec a b)
  | H : context [Pos.compare_cont Eq ?a ?b] |- _ =>
      change (Pos.compare_cont Eq a b) with (Pos.compare a b) in *;
      destruct (Pos.compare_spec a b)
  | |- context [Pos.compare_cont Eq ?a ?b] =>
      change (Pos.compare_cont Eq a b) with (Pos.compare a b) in *;
      destruct (Pos.compare_spec a b)
  end.

Ltac spec_float_cases :=
  unfold SFleb, SFeqb, SFcompare;
  repeat match goal with
  | f : spec_float |- _ => destruct f
  | s : bool |- _ => destruct s
  end;
  cbn; intros; try discriminate; try reflexivity;
  compare_cases; subst; cbn in *;
  try discriminate; try reflexivity; try (split; reflexivity); try lia.

Lemma SFleb_trans (a b c : spec_float) :
  SFleb a b = true -> SFleb b c = true -> SFleb a c = true.
Proof. spec_float_cases. Qed.

Lemma SFleb_total (a b : spec_float) :
  SFleb a a = true -> SFleb b b = true -> SFleb a b = false -> SFleb b a = true.
Proof. spec_float_cases. Qed.

Lemma SFleb_number (a b : spec_float) :
  SFleb a b = true -> SFleb a a = true /\ SFleb b b = true.
Proof. spec_float_cases. Qed.

Lemma SFeqb_SFleb (a b : spec_float) :
  SFeqb a b = SFleb a b && SFleb b a.
Proof. spec_float_cases. Qed.

#[export] Instance float_NumberOrder : NumberOrder float.
Proof.
  constructor; cbn; intros *; rewrite ?leb_spec, ?eqb_spec.
  - apply SFleb_trans.
  - apply SFleb_total.
  - apply SFleb_number.
  - apply SFeqb_SFleb.
Qed.

(** ** Sorting and searching the profile *)

Section ProfileLemmas.
Context {R : Type} `{NumberOrder R}.
Local Open Scope num_scope.

Lemma nltb_true (a b : R) :
  nltb a b = true -> (a <=? b) = true /\ (b <=? a) = false.
Proof.
  unfold nltb. intros E. apply andb_true_iff in E as [E1 E2].
  apply negb_true_iff in E2. now split.
Qed.

Lemma nltb_neqb (a b : R) : nltb a b = true -> (b =? a) = false.
Proof.
  intros E. apply nltb_true in E as [_ E]. rewrite neqb_nleb, E. reflexivity.
Qed.

(** A profile that is already ascending is left as it is by [sorted]. *)
Lemma sorted_ascending (l : list (point R)) :
  ascending l = true -> sorted l = l.
Proof.
  induction l as [| p l IH]; [reflexivity |].
  intros Hasc. cbn [sorted fold_right]. fold (sorted l).
  destruct l as [| q l'].
  - reflexivity.
  - cbn [ascending] in Hasc. apply andb_true_iff in Hasc as [Hpq Hl].
    rewrite (IH Hl). cbn [insert_by_key]. now rewrite Hpq.
Qed.

Lemma insert_by_key_In (p q : point R) (l : list (point R)) :
  In q (insert_by_key p l) <-> q = p \/ In q l.
Proof.
  induction l as [| a l IH]; cbn.
  - intuition congruence.
  - destruct (fst p <=? fst a); cbn; rewrite ?IH; intuition congruence.
Qed.

Lemma sorted_In (q : point R) (l : list (point R)) :
  In q (sorted l) <-> In q l.
Proof.
  induction l as [| a l IH]; cbn; [tauto |].
  fold (sorted l). rewrite insert_by_key_In, IH. intuition congruence.
Qed.

Lemma insert_by_key_length (p : point R) (l : list (point R)) :
  List.length (insert_by_key p l) = S (List.length l).
Proof.
  induction l as [| a l IH]; cbn; [reflexivity |].
  destruct (fst p <=? fst a); cbn; congruence.
Qed.

Lemma sorted_length (l : list (point R)) : List.length (sorted l) = List.length l.
Proof.
  induction l as [| a l IH]; cbn; [reflexivity |].
  fold (sorted l). now rewrite insert_by_key_length, IH.
Qed.

Lemma insert_by_key_ascending (p : point R) (l : list (point R)) :
  is_number (fst p) -> Forall (fun q => is_number (fst q)) l ->
  ascending l = true -> ascending (insert_by_key p l) = true.
Proof.
  intros Hp. induction l as [| a l IH]; intros Hl Hasc; [reflexivity |].
  inversion Hl as [| ? ? Ha Hl']; subst.
  cbn [insert_by_key]. destruct (fst p <=? fst a) eqn:Epa.
  - cbn [ascending]. cbn [ascending] in Hasc. now rewrite Epa, Hasc.
  - assert (Hap : (fst a <=? fst p) = true) by now apply nleb_total.
    destruct l as [| b l'].
    + cbn. now rewrite Hap.
    + cbn [ascending] in Hasc. apply andb_true_iff in Hasc as [Hab Hl2].
      specialize (IH Hl' Hl2). cbn [insert_by_key] in IH |- *.
      destruct (fst p <=? fst b) eqn:Epb.
      * cbn [ascending] in IH |- *. now rewrite Hap, IH.
      * cbn [ascending] in IH |- *. now rewrite Hab, IH.
Qed.

Lemma sorted_is_ascending (l : list (point R)) :
  Forall (fun q => is_number (fst q)) l -> ascending (sorted l) = true.
Proof.
  induction 1 as [| a l Ha Hl IH]; [reflexivity |].
  cbn. fold (sorted l). apply insert_by_key_ascending; auto.
  apply Forall_forall. intros q Hq. rewrite sorted_In in Hq.
  rewrite Forall_forall in Hl. now apply Hl.
Qed.

(** In an ascending profile the first point has the smallest key and the
    last point the largest. *)
Lemma ascending_first_le (a : point R) (l : list (point R)) :
  ascending (a :: l) = true -> is_number (fst a) ->
  Forall (fun q => (fst a <=? fst q) = true) (a :: l).
Proof.
  revert a. induction l as [| b l IH]; intros a Hasc Ha.
  - now repeat constructor.
  - cbn [ascending] in Hasc. apply andb_true_iff in Hasc as [Hab Hl].
    constructor; [exact Ha |].
    assert (Hb : is_number (fst b)) by now apply (nleb_number _ _ Hab).
    specialize (IH b Hl Hb).
    eapply Forall_impl; [| exact IH].
    intros q Hq. cbn in Hq. now apply nleb_trans with (fst b).
Qed.

Lemma ascending_le_last (l : list (point R)) (last : point R) :
  ascending l = true -> Forall (fun q => is_number (fst q)) l ->
  index_last l = Ok last ->
  Forall (fun q => (fst q <=? fst last) = true) l.
Proof.
  induction l as [| a l IH]; intros Hasc Hnum Hlast; [constructor |].
  inversion Hnum as [| ? ? Ha Hl]; subst.
  destruct l as [| b l'].
  - cbn in Hlast. injection Hlast as <-. now repeat constructor.
  - cbn [ascending] in Hasc. apply andb_true_iff in Hasc as [Hab Hl2].
    change (index_last (a :: b :: l')) with (index_last (b :: l')) in Hlast.
    specialize (IH Hl2 Hl Hlast).
    constructor; [| exact IH].
    inversion IH as [| ? ? Hb _]; subst.
    now apply nleb_trans with (fst b).
Qed.

Lemma index_last_In {A} (l : list A) (a : A) : index_last l = Ok a -> In a l.
Proof.
  induction l as [| b l IH]; [discriminate |].
  destruct l as [| c l'].
  - cbn. intros E. injection E as <-. now left.
  - intros E. right. now apply IH.
Qed.

Lemma index_last_app {A} (l : list A) (a : A) : index_last (l ++ [a]) = Ok a.
Proof.
  induction l as [| b l IH]; [reflexivity |].
  cbn [app]. destruct (l ++ [a]) eqn:E.
  - now destruct l.
  - exact IH.
Qed.

Lemma index_last_nonempty {A} (l : list A) :
  l <> [] -> exists a, index_last l = Ok a.
Proof.
  induction l as [| b l IH]; [congruence |]. intros _.
  destruct l as [| c l'].
  - now exists b.
  - destruct IH as [a Ha]; [discriminate |]. now exists a.
Qed.
End ProfileLemmas.

Section RightXAtLemmas.
Context {R : Type} `{NumberOrder R}.
Local Open Scope num_scope.

Lemma ascending_numbers (a b : point R) (l : list (point R)) :
  ascending (a :: b :: l) = true ->
  Forall (fun q => is_number (fst q)) (a :: b :: l).
Proof.
  revert a b. induction l as [| c l IH]; intros a b Hasc;
    cbn [ascending] in Hasc; apply andb_true_iff in Hasc as [Hab Hl].
  - destruct (nleb_number _ _ Hab). now repeat constructor.
  - constructor; [apply (nleb_number _ _ Hab) | now apply IH].
Qed.

Lemma ascending_app_l (l1 l2 : list (point R)) :
  ascending (l1 ++ l2) = true -> ascending l1 = true.
Proof.
  induction l1 as [| a l1 IH]; [reflexivity |].
  destruct l1 as [| b l1']; [reflexivity |].
  cbn [app ascending]. intros E. apply andb_true_iff in E as [Hab Hl].
  rewrite Hab. now apply IH.
Qed.

(** The loop passes over every pair whose second point lies below the
    query. *)
Lemma find_span_skip (pre : list (point R)) (p : point R) (rest : list (point R)) (y : R) :
  Forall (fun v => (y <=? fst v) = false) (pre ++ [p]) ->
  find_span (combine (pre ++ p :: rest) (tl (pre ++ p :: rest))) y
  = find_span (combine (p :: rest) rest) y.
Proof.
  induction pre as [| a pre IH]; intros Hlow; [reflexivity |].
  cbn [app] in Hlow. inversion Hlow as [| ? ? _ Hlow']; subst.
  specialize (IH Hlow').
  cbn [app tl]. destruct pre as [| b pre'].
  - cbn [app] in *. inversion Hlow' as [| ? ? Hp _]; subst.
    cbn [combine find_span]. rewrite Hp, andb_false_r. exact IH.
  - cbn [app] in *. inversion Hlow' as [| ? ? Hb _]; subst.
    cbn [combine find_span]. rewrite Hb, andb_false_r. exact IH.
Qed.

(** Above the first breakpoint and not above the last, the loop stops at a
    pair of consecutive points that brackets the query, the lower one
    strictly. *)
Lemma find_span_bracket (rp : list (point R)) (first last : point R) (y : R) :
  ascending rp = true ->
  index_first rp = Ok first -> index_last rp = Ok last ->
  (fst first <=? y) = true -> (y <=? fst first) = false ->
  (y <=? fst last) = true ->
  exists pre p0 p1 post,
    rp = pre ++ p0 :: p1 :: post /\
    (fst p0 <=? y) = true /\ (y <=? fst p0) = false /\ (y <=? fst p1) = true /\
    find_span (combine rp (tl rp)) y = Some (span_x p0 p1 y).
Proof.
  revert first. induction rp as [| a rp IH]; intros first Hasc Hfirst Hlast Hlo Hnlo Hhi;
    [discriminate |].
  cbn in Hfirst. injection Hfirst as <-.
  destruct rp as [| b rp'].
  - cbn in Hlast. injection Hlast as <-. congruence.
  - cbn [ascending] in Hasc. apply andb_true_iff in Hasc as [Hab Hasc].
    change (index_last (a :: b :: rp')) with (index_last (b :: rp')) in Hlast.
    destruct (y <=? fst b) eqn:Eyb.
    + exists [], a, b, rp'. cbn [app tl combine find_span].
      rewrite Hlo, Eyb. cbn. auto.
    + assert (Hby : (fst b <=? y) = true).
      { apply nleb_total; [apply (nleb_number _ _ Hlo) | apply (nleb_number _ _ Hab) | exact Eyb]. }
      destruct (IH b Hasc eq_refl Hlast Hby Eyb Hhi)
        as (pre & p0 & p1 & post & Erp & H0lo & H0nlo & H1hi & Hfind).
      exists (a :: pre), p0, p1, post. cbn [app]. rewrite <- Erp.
      repeat split; auto.
      cbn [tl combine find_span]. cbn [tl] in Hfind.
      now rewrite Eyb, andb_false_r.
Qed.

(** The two clamps, as the code tests them: the low one first. *)
Lemma right_x_at_clamp_low (rp : list (point R)) (first : point R) (y : R) :
  index_first (sorted rp) = Ok first -> (y <=? fst first) = true ->
  right_x_at rp y = Ok (snd first).
Proof. intros Hfirst Hlo. unfold right_x_at. rewrite Hfirst. cbn. now rewrite Hlo. Qed.

Lemma right_x_at_clamp_high (rp : list (point R)) (first last : point R) (y : R) :
  index_first (sorted rp) = Ok first -> index_last (sorted rp) = Ok last ->
  (y <=? fst first) = false -> (fst last <=? y) = true ->
  right_x_at rp y = Ok (snd last).
Proof.
  intros Hfirst Hlast Hlo Hhi. unfold right_x_at.
  rewrite Hfirst. cbn. rewrite Hlo, Hlast. cbn. now rewrite Hhi.
Qed.

Lemma right_x_at_search (rp : list (point R)) (first last : point R) (y : R) :
  index_first (sorted rp) = Ok first -> index_last (sorted rp) = Ok last ->
  (y <=? fst first) = false -> (fst last <=? y) = false ->
  right_x_at rp y =
    match find_span (combine (sorted rp) (tl (sorted rp))) y with
    | Some v => Ok v
    | None => Ok (snd last)
    end.
Proof.
  intros Hfirst Hlast Hlo Hhi. unfold right_x_at.
  rewrite Hfirst. cbn. rewrite Hlo, Hlast. cbn. now rewrite Hhi.
Qed.

(** [right_x_at] returns a value on every profile that has a point. *)
Lemma right_x_at_returns (rp : list (point R)) (y : R) :
  rp <> [] -> exists v, right_x_at rp y = Ok v.
Proof.
  intros Hne.
  assert (Hs : sorted rp <> []).
  { intros E. apply Hne. apply length_zero_iff_nil.
    now rewrite <- sorted_length, E. }
  destruct (sorted rp) as [| first l] eqn:Es; [congruence |].
  destruct (index_last_nonempty (first :: l) Hs) as [last Hlast].
  unfold right_x_at. rewrite Es. cbn [index_first result_bind].
  destruct (y <=? fst first); [eauto |].
  rewrite Hlast. cbn [result_bind].
  destruct (fst last <=? y); [eauto |].
  destruct (find_span _ y); eauto.
Qed.

(** Interior queries of an ascending profile are interpolated on a
    bracketing pair of consecutive points with distinct breakpoints. *)
Lemma right_x_at_bracket (rp : list (point R)) (first last : point R) (y : R) :
  ascending rp = true ->
  index_first rp = Ok first -> index_last rp = Ok last ->
  nltb (fst first) y = true -> nltb y (fst last) = true ->
  exists pre y0 x0 y1 x1 post,
    rp = pre ++ (y0, x0) :: (y1, x1) :: post /\
    (y0 <=? y) = true /\ (y <=? y1) = true /\ (y1 =? y0) = false /\
    right_x_at rp y = Ok (x0 + (y - y0) / (y1 - y0) * (x1 - x0)).
Proof.
  intros Hasc Hfirst Hlast Hlo Hhi.
  apply nltb_true in Hlo as [Hlo Hnlo]. apply nltb_true in Hhi as [Hhi Hnhi].
  destruct (find_span_bracket rp first last y Hasc Hfirst Hlast Hlo Hnlo Hhi)
    as (pre & [y0 x0] & [y1 x1] & post & Erp & H0lo & H0nlo & H1hi & Hfind).
  cbn [fst snd] in *.
  assert (Hne : (y1 =? y0) = false).
  { rewrite neqb_nleb. destruct (y1 <=? y0) eqn:E10; [| reflexivity].
    rewrite (nleb_trans _ _ _ H1hi E10) in H0nlo. discriminate. }
  exists pre, y0, x0, y1, x1, post. repeat split; auto.
  rewrite (right_x_at_search rp first last y);
    rewrite ?(sorted_ascending rp Hasc); auto.
  rewrite Hfind. unfold span_x. now rewrite Hne.
Qed.

(** At a breakpoint strictly above its predecessor and strictly below the
    last breakpoint, the value is computed on the segment that ends there. *)
Lemma right_x_at_breakpoint (pre : list (point R)) (p q : point R)
    (post : list (point R)) (last : point R) :
  let rp := pre ++ p :: q :: post in
  ascending rp = true -> index_last rp = Ok last ->
  nltb (fst p) (fst q) = true -> nltb (fst q) (fst last) = true ->
  right_x_at rp (fst q) = Ok (span_x p q (fst q)).
Proof.
  intros rp Hasc Hlast Hpq Hql.
  apply nltb_true in Hpq as [Hpq Hnqp]. apply nltb_true in Hql as [Hql Hnlq].
  assert (Hq : is_number (fst q)) by apply (nleb_number _ _ Hpq).
  (* every point up to [p] lies strictly below [q] *)
  assert (Hlow : Forall (fun v => (fst q <=? fst v) = false) (pre ++ [p])).
  { assert (Hasc' : ascending (pre ++ [p]) = true).
    { apply ascending_app_l with (l2 := q :: post).
      now rewrite <- app_assoc. }
    assert (Hnum : Forall (fun v => is_number (fst v)) (pre ++ [p])).
    { destruct pre as [| a [| b pre']].
      - repeat constructor. apply (nleb_number _ _ Hpq).
      - now apply ascending_numbers.
      - now apply ascending_numbers. }
    pose proof (ascending_le_last _ p Hasc' Hnum (index_last_app pre p)) as Hle.
    eapply Forall_impl; [| exact Hle]. cbn. intros v Hv.
    destruct (fst q <=? fst v) eqn:E; [| reflexivity].
    rewrite (nleb_trans _ _ _ E Hv) in Hnqp. discriminate. }
  assert (Hfirst : exists first, index_first rp = Ok first /\ (fst q <=? fst first) = false).
  { subst rp. destruct pre as [| a pre'].
    - exists p. split; [reflexivity | exact Hnqp].
    - exists a. split; [reflexivity |]. now inversion Hlow. }
  destruct Hfirst as (first & Hfirst & Hnlo).
  rewrite (right_x_at_search rp first last (fst q));
    rewrite ?(sorted_ascending rp Hasc); auto.
  subst rp. rewrite find_span_skip by exact Hlow.
  cbn [combine find_span]. now rewrite Hpq, Hq.
Qed.
End RightXAtLemmas.

(** ** Exact arithmetic: the value of a span at its ends *)

Lemma span_x_degenerate (p0 p1 : point Q) (y : Q) :
  fst p1 == fst p0 -> span_x p0 p1 y == snd p0.
Proof.
  destruct p0 as [y0 x0], p1 as [y1 x1]. cbn. intros E.
  apply Qeq_bool_iff in E. rewrite E. cbn. ring.
Qed.

Lemma span_x_end (p q : point Q) :
  ~ fst q == fst p -> span_x p q (fst q) == snd q.
Proof.
  destruct p as [y0 x0], q as [y1 x1]. cbn. intros E.
  destruct (Qeq_bool y1 y0) eqn:Eb.
  - apply Qeq_bool_iff in Eb. contradiction.
  - cbn. field. intros E0. apply E. lra.
Qed.

Lemma span_x_start (q r : point Q) : span_x q r (fst q) == snd q.
Proof.
  destruct q as [y0 x0], r as [y1 x1]. cbn.
  destruct (Qeq_bool y1 y0) eqn:Eb; cbn.
  - ring.
  - field. intros E0. apply Qeq_bool_neq in Eb. apply Eb. lra.
Qed.

(** ** The profile interpolator *)

(** C1: on a profile sorted ascending by its first component, a query
    strictly between the first and the last breakpoint is answered from a
    pair of consecutive points (y0,x0), (y1,x1) with y0 <= y <= y1, as
    x0 + (y-y0)/(y1-y0)*(x1-x0); such a pair never has y1 == y0.  This holds
    in binary64 and in exact arithmetic alike.  Where the guard for y1 == y0
    applies, the span evaluates to x0 (exact arithmetic).  For the profile
    (0,350), (1000,400), right_x_at(500) is 375, in binary64 and exactly. *)
Theorem right_x_at_interpolates :
  (forall (R : Type) (N : Number R) (O : NumberOrder R)
          (rp : list (point R)) (first last : point R) (y : R),
      ascending rp = true ->
      index_first rp = Ok first -> index_last rp = Ok last ->
      nltb (fst first) y = true -> nltb y (fst last) = true ->
      exists pre y0 x0 y1 x1 post,
        rp = pre ++ (y0, x0) :: (y1, x1) :: post /\
        (y0 <=? y)%num = true /\ (y <=? y1)%num = true /\ (y1 =? y0)%num = false /\
        right_x_at rp y = Ok (x0 + (y - y0) / (y1 - y0) * (x1 - x0))%num)
  /\ (forall (p0 p1 : point Q) (y : Q),
        fst p1 == fst p0 -> span_x p0 p1 y == snd p0)
  /\ right_x_at (R := float) two_point_profile (lit 500) = Ok (lit 375)
  /\ (exists v : Q,
        right_x_at (R := Q) two_point_profile (lit 500) = Ok v /\ v == 375).
Proof.
  split; [| split; [| split]].
  - intros R N O rp first last y. apply right_x_at_bracket.
  - exact span_x_degenerate.
  - reflexivity.
  - eexists. split; [reflexivity | reflexivity].
Qed.

Lemma right_x_at_interpolates_witness :
  ascending (R := float) two_point_profile = true /\
  nltb (R := float) (lit 0) (lit 500) = true /\
  nltb (R := float) (lit 500) (lit 1000) = true /\
  exists pre y0 x0 y1 x1 post,
    two_point_profile = pre ++ (y0, x0) :: (y1, x1) :: post /\
    (y0 <=? lit 500)%num = true /\ (lit 500 <=? y1)%num = true /\
    (y1 =? y0)%num = false /\
    right_x_at (R := float) two_point_profile (lit 500)
    = Ok (x0 + (lit 500 - y0) / (y1 - y0) * (x1 - x0))%num.
Proof.
  repeat (split; [reflexivity |]).
  apply (proj1 right_x_at_interpolates float _ _ two_point_profile
           (lit 0, lit 350)%num (lit 1000, lit 400)%num (lit 500));
    reflexivity.
Defined.

(** C3 (as stated, refuted): the high clamp does not hold for every profile
    and query.  On the profile (5,1), (5,2) the query 5 is not below the
    largest breakpoint, yet the low clamp is tested first and answers 1, the
    offset of the first point, not 2, the offset of the last one. *)
Lemma right_x_at_clamp_high_counterexample :
  ~ (forall (rp : list (point float)) (last : point float) (y : float),
       rp <> [] -> index_last (sorted rp) = Ok last ->
       (fst last <=? y)%num = true ->
       right_x_at rp y = Ok (snd last)).
Proof.
  intros Hclaim.
  specialize (Hclaim tied_profile (lit 5, lit 2) (lit 5)).
  assert (E : right_x_at (R := float) tied_profile (lit 5) = Ok (lit 2)).
  { apply Hclaim; [discriminate | reflexivity | reflexivity]. }
  apply (f_equal (fun r => match r with
                           | Ok v => PrimFloat.eqb v (lit 2)
                           | Raise _ => false
                           end)) in E.
  vm_compute in E. discriminate.
Qed.

(** C3 (amended): for every profile with at least one point, all of whose
    breakpoints are numbers, let first and last be the ends of the sorted
    profile; they are points of the profile with the smallest and the
    largest breakpoint.  If y <= first.y then right_x_at(y) is first.x; if
    the low clamp does not apply (y <= first.y is false) and y >= last.y,
    then right_x_at(y) is last.x. *)
Theorem right_x_at_clamps :
  forall (R : Type) (N : Number R) (O : NumberOrder R)
         (rp : list (point R)) (y : R),
    rp <> [] -> Forall (fun q => is_number (fst q)) rp ->
    exists first last,
      index_first (sorted rp) = Ok first /\ index_last (sorted rp) = Ok last /\
      In first rp /\ In last rp /\
      Forall (fun q => (fst first <=? fst q)%num = true /\
                       (fst q <=? fst last)%num = true) rp /\
      ((y <=? fst first)%num = true -> right_x_at rp y = Ok (snd first)) /\
      ((y <=? fst first)%num = false -> (fst last <=? y)%num = true ->
       right_x_at rp y = Ok (snd last)).
Proof.
  intros R N O rp y Hne Hnum.
  assert (Hs : sorted rp <> []).
  { intros E. apply Hne. apply length_zero_iff_nil.
    now rewrite <- sorted_length, E. }
  assert (Hnum' : Forall (fun q => is_number (fst q)) (sorted rp)).
  { apply Forall_forall. intros q Hq. rewrite sorted_In in Hq.
    rewrite Forall_forall in Hnum. now apply Hnum. }
  pose proof (sorted_is_ascending rp Hnum) as Hasc.
  destruct (index_last_nonempty _ Hs) as [last Hlast].
  destruct (sorted rp) as [| first l] eqn:Es; [congruence |].
  exists first, last. split; [reflexivity |]. split; [exact Hlast |].
  assert (Hin : forall q, In q rp <-> In q (first :: l)).
  { intros q. rewrite <- Es. symmetry. apply sorted_In. }
  split; [apply Hin; now left |].
  split; [apply Hin; now apply index_last_In |].
  split.
  - inversion Hnum' as [| ? ? Hf _]; subst.
    pose proof (ascending_first_le first l Hasc Hf) as Hlo.
    pose proof (ascending_le_last _ last Hasc Hnum' Hlast) as Hhi.
    rewrite Forall_forall in Hlo, Hhi. apply Forall_forall.
    intros q Hq. apply Hin in Hq. split; [now apply Hlo | now apply Hhi].
  - split.
    + intros Hlo. apply right_x_at_clamp_low; [now rewrite Es | exact Hlo].
    + intros Hlo Hhi. apply right_x_at_clamp_high with first;
        rewrite ?Es; auto.
Qed.

Lemma right_x_at_clamps_witness :
  exists first last : point float,
    index_first (sorted tied_profile) = Ok first /\
    index_last (sorted tied_profile) = Ok last /\
    In first tied_profile /\ In last tied_profile /\
    Forall (fun q => (fst first <=? fst q)%num = true /\
                     (fst q <=? fst last)%num = true) tied_profile /\
    ((lit 7 <=? fst first)%num = true ->
     right_x_at tied_profile (lit 7) = Ok (snd first)) /\
    ((lit 7 <=? fst first)%num = false -> (fst last <=? lit 7)%num = true ->
     right_x_at tied_profile (lit 7) = Ok (snd last)).
Proof.
  apply (right_x_at_clamps float _ _ tied_profile (lit 7)).
  - discriminate.
  - repeat constructor.
Defined.

(** C4 (as stated, refuted): the value at an interior breakpoint is not
    always the stored offset.  On the ascending profile (0,0), (5,1), (5,2),
    (10,3) the point (5,2) has an interior breakpoint, but right_x_at(5) is
    1: the loop stops at the segment from (0,0) to (5,1).  And in binary64
    the value is rounded: on the strictly ascending profile (0,1/2),
    (1,1/10), (2,3/10) the value at 1 is 1/2 + 1*(1/10 - 1/2), which is not
    the binary64 number 1/10. *)
Lemma right_x_at_breakpoint_counterexample :
  ~ (forall (rp : list (point float)) (first last : point float) (yk xk : float),
       ascending rp = true ->
       index_first rp = Ok first -> index_last rp = Ok last ->
       In (yk, xk) rp ->
       nltb (fst first) yk = true -> nltb yk (fst last) = true ->
       right_x_at rp yk = Ok xk)
  /\ (exists v : float,
        right_x_at (R := float) bent_profile (lit 1) = Ok v /\
        (v =? lit 1 / lit 10)%num = false).
Proof.
  split.
  - intros Hclaim.
    specialize (Hclaim stepped_profile (lit 0, lit 0)%num (lit 10, lit 3)%num
                  (lit 5) (lit 2)).
    assert (E : right_x_at (R := float) stepped_profile (lit 5) = Ok (lit 2)).
    { apply Hclaim; try reflexivity. right. right. left. reflexivity. }
    apply (f_equal (fun r => match r with
                             | Ok v => PrimFloat.eqb v (lit 2)
                             | Raise _ => false
                             end)) in E.
    vm_compute in E. discriminate.
  - eexists. split; reflexivity.
Qed.

(** C4 (amended): on an ascending profile, at a breakpoint y_k that lies
    strictly above the breakpoint before it and strictly below the last
    one, right_x_at(y_k) is computed on the segment that ends at
    (y_k, x_k), as x_{k-1} + (y_k - y_{k-1})/(y_k - y_{k-1}) * (x_k - x_{k-1}),
    in binary64 and in exact arithmetic alike.  In exact arithmetic that
    value is x_k, and the segment that starts at (y_k, x_k) gives x_k at y_k
    too.  Nothing is stated about how close the binary64 value is to x_k. *)
Theorem right_x_at_continuous :
  (forall (R : Type) (N : Number R) (O : NumberOrder R)
          (pre : list (point R)) (p q : point R) (post : list (point R))
          (last : point R),
      ascending (pre ++ p :: q :: post) = true ->
      index_last (pre ++ p :: q :: post) = Ok last ->
      nltb (fst p) (fst q) = true -> nltb (fst q) (fst last) = true ->
      right_x_at (pre ++ p :: q :: post) (fst q) = Ok (span_x p q (fst q)) /\
      span_x p q (fst q)
      = (snd p + (fst q - fst p) / (fst q - fst p) * (snd q - snd p))%num)
  /\ (forall (pre : list (point Q)) (p q r : point Q) (post : list (point Q))
             (last : point Q),
        ascending (pre ++ p :: q :: r :: post) = true ->
        index_last (pre ++ p :: q :: r :: post) = Ok last ->
        nltb (fst p) (fst q) = true -> nltb (fst q) (fst last) = true ->
        exists v : Q,
          right_x_at (pre ++ p :: q :: r :: post) (fst q) = Ok v /\
          v == snd q /\
          span_x p q (fst q) == snd q /\ span_x q r (fst q) == snd q).
Proof.
  split.
  - intros R N O pre p q post last Hasc Hlast Hpq Hql. split.
    + now apply (right_x_at_breakpoint pre p q post last).
    + destruct p as [y0 x0], q as [y1 x1]. cbn [fst snd] in *.
      unfold span_x. now rewrite (nltb_neqb _ _ Hpq).
  - intros pre p q r post last Hasc Hlast Hpq Hql.
    assert (Hend : span_x p q (fst q) == snd q).
    { apply span_x_end. intros E. apply nltb_neqb in Hpq.
      cbn in Hpq. apply Qeq_bool_neq in Hpq. contradiction. }
    exists (span_x p q (fst q)). split; [| split; [| split]].
    + now apply (right_x_at_breakpoint pre p q (r :: post) last).
    + exact Hend.
    + exact Hend.
    + apply span_x_start.
Qed.

Lemma right_x_at_continuous_witness :
  exists v : Q,
    right_x_at (R := Q) bent_profile (lit 1) = Ok v /\
    v == 1 # 10 /\
    span_x (R := Q) (lit 0, lit 1 / lit 2)%num (lit 1, lit 1 / lit 10)%num (lit 1) == 1 # 10 /\
    span_x (R := Q) (lit 1, lit 1 / lit 10)%num (lit 2, lit 3 / lit 10)%num (lit 1) == 1 # 10.
Proof.
  pose proof (proj2 right_x_at_continuous []
                (lit 0, lit 1 / lit 2)%num (lit 1, lit 1 / lit 10)%num
                (lit 2, lit 3 / lit 10)%num [] (lit 2, lit 3 / lit 10)%num) as W.
  exact (W eq_refl eq_refl eq_refl eq_refl).
Defined.

(** ** What the statements of the build draw *)

Section BuildLemmas.
Context {R : Type} `{Number R}.
Local Open Scope num_scope.

Lemma draws_ret {A} (a : A) : draws (R := R) (ret a) a [].
Proof. intros d. cbn. now rewrite app_nil_r. Qed.

Lemma draws_lift {A} (r : result A) (a : A) : r = Ok a -> draws (R := R) (lift r) a [].
Proof. intros -> d. cbn. now rewrite app_nil_r. Qed.

Lemma draws_add_entity (e : entity R) : draws (add_entity e) tt [e].
Proof. intros d. now cbn. Qed.

Lemma draws_add_layer_if_absent (name : string) (color : Z) :
  draws (R := R) (add_layer_if_absent name color) tt [].
Proof.
  intros d. unfold add_layer_if_absent.
  destruct (in_layers name (layers d)); cbn; now rewrite app_nil_r.
Qed.

Lemma draws_bind {A B} (m : M A) (k : A -> M B) (a : A) (b : B)
    (es1 es2 : list (entity R)) :
  draws m a es1 -> draws (k a) b es2 -> draws (bind m k) b (es1 ++ es2).
Proof.
  intros Hm Hk d. unfold bind.
  destruct (Hm d) as [Ha Hd]. destruct (m d) as [r d']. cbn in Ha, Hd. subst r.
  destruct (Hk d') as [Hb Hd']. split; [exact Hb |].
  now rewrite Hd', Hd, app_assoc.
Qed.

Lemma fails_lift {A} (r : result A) (e : exn) : r = Raise e -> fails (R := R) (lift r) e [].
Proof. intros -> d. cbn. now rewrite app_nil_r. Qed.

Lemma fails_bind {A B} (m : M A) (k : A -> M B) (e : exn) (es : list (entity R)) :
  fails m e es -> fails (bind m k) e es.
Proof.
  intros Hm d. unfold bind.
  destruct (Hm d) as [Ha Hd]. destruct (m d) as [r d']. cbn in Ha, Hd. subst r.
  now split.
Qed.

Lemma draws_then_fails {A B} (m : M A) (k : A -> M B) (a : A) (e : exn)
    (es1 es2 : list (entity R)) :
  draws m a es1 -> fails (k a) e es2 -> fails (bind m k) e (es1 ++ es2).
Proof.
  intros Hm Hk d. unfold bind.
  destruct (Hm d) as [Ha Hd]. destruct (m d) as [r d']. cbn in Ha, Hd. subst r.
  destruct (Hk d') as [Hb Hd']. split; [exact Hb |].
  now rewrite Hd', Hd, app_assoc.
Qed.

Lemma draws_for_each {A} (l : list A) (body : A -> M unit)
    (f : A -> list (entity R)) :
  (forall a, In a l -> draws (body a) tt (f a)) ->
  draws (for_each l body) tt (flat_map f l).
Proof.
  induction l as [| a l IH]; intros Hbody; cbn [for_each flat_map].
  - apply draws_ret.
  - apply draws_bind with (a := tt).
    + apply Hbody. now left.
    + apply IH. intros b Hb. apply Hbody. now right.
Qed.

Lemma draws_eq {A} (m : M A) (a : A) (es es' : list (entity R)) :
  draws m a es -> es = es' -> draws m a es'.
Proof. now intros Hm <-. Qed.

Lemma flat_map_single {A B} (f : A -> B) (l : list A) :
  flat_map (fun a => [f a]) l = map f l.
Proof. induction l as [| a l IH]; cbn; congruence. Qed.

(** The loop of [dashed_line] draws the intervals met while the flag is
    on. *)
Lemma draws_dashed_loop (p1 p2 : Vec2.t R) (layer : string) (on : bool)
    (indices : list Z) :
  draws (dashed_loop p1 p2 layer on indices) tt
        (map (dash p1 p2 layer) (alternate on indices)).
Proof.
  revert on. induction indices as [| i rest IH]; intros on; cbn [dashed_loop alternate].
  - apply draws_ret.
  - unfold dashed_step. destruct on; cbn [map negb].
    + apply draws_bind with (a := false) (es1 := [dash p1 p2 layer i]).
      * eapply draws_eq.
        -- apply draws_bind with (a := tt); [apply draws_add_entity | apply draws_ret].
        -- reflexivity.
      * apply IH.
    + apply draws_bind with (a := true) (es1 := []).
      * eapply draws_eq.
        -- apply draws_bind with (a := tt); apply draws_ret.
        -- reflexivity.
      * apply IH.
Qed.

Lemma draws_dashed_line (p1 p2 : Vec2.t R) (layer : string) :
  draws (dashed_line p1 p2 layer) tt
        (map (dash p1 p2 layer) (alternate true (range segs))).
Proof. apply draws_dashed_loop. Qed.

Lemma index_last_map {A B} (f : A -> B) (l : list A) (a : A) :
  index_last l = Ok a -> index_last (map f l) = Ok (f a).
Proof.
  induction l as [| b l IH]; [discriminate |].
  destruct l as [| c l'].
  - cbn. now intros [= ->].
  - intros E. change (index_last (map f (c :: l')) = Ok (f a)). now apply IH.
Qed.

Lemma right_x_at_edge_x (profile : list (point R)) (y : R) :
  profile <> [] -> right_x_at profile y = Ok (edge_x profile y).
Proof.
  intros Hne. unfold edge_x.
  destruct (right_x_at_returns profile y Hne) as [v ->]. reflexivity.
Qed.

Lemma emits_bind {A B} (m : M A) (k : A -> M B) (a : A) (r : result B)
    (es1 es2 : list (entity R)) :
  draws m a es1 -> emits (k a) r es2 -> emits (bind m k) r (es1 ++ es2).
Proof.
  intros Hm Hk d. unfold bind.
  destruct (Hm d) as [Ha Hd]. destruct (m d) as [r' d']. cbn in Ha, Hd. subst r'.
  destruct (Hk d') as [Hb Hd']. split; [exact Hb |].
  now rewrite Hd', Hd, app_assoc.
Qed.

Lemma emits_raise {A B} (m : M A) (k : A -> M B) (e : exn) (es : list (entity R)) :
  emits m (Raise e) es -> emits (bind m k) (Raise e) es.
Proof.
  intros Hm d. unfold bind.
  destruct (Hm d) as [Ha Hd]. destruct (m d) as [r d']. cbn in Ha, Hd. subst r.
  now split.
Qed.

Lemma emits_eq {A} (m : M A) (r : result A) (es es' : list (entity R)) :
  emits m r es -> es = es' -> emits m r es'.
Proof. now intros Hm <-. Qed.

(** The loop over the stations: a tick and a label per station, up to the
    first station on which [int(y)] raises. *)
Lemma emits_ticks (p : Params R) (l : list R) :
  emits (for_each l (fun y =>
           bind (add_line (Vec2.mk (left_x p - lit 8) y) (Vec2.mk (left_x p) y) "CENTER")
             (fun _ => bind (lift (format_int y))
                (fun s => add_text s (Vec2.mk (left_x p - lit 40) (y - lit 3))
                                   "NOTES" (lit 8)))))
        (ticks_outcome l) (ticks_drawn p l).
Proof.
  induction l as [| y l IH]; cbn [for_each ticks_outcome ticks_drawn].
  - apply draws_ret.
  - destruct (format_int y) as [s | e] eqn:Ey.
    + apply (emits_bind _ _ tt _ [tick_line p y; tick_label p y]); [| exact IH].
      apply (draws_bind _ _ tt tt [tick_line p y] [tick_label p y]);
        [apply draws_add_entity |].
      apply (draws_bind _ _ s tt [] [tick_label p y]); [now apply draws_lift |].
      unfold tick_label, label. rewrite Ey. apply draws_add_entity.
    + apply emits_raise.
      apply (emits_bind _ _ tt _ [tick_line p y] []); [apply draws_add_entity |].
      apply emits_raise. intros d. cbn. now rewrite app_nil_r.
Qed.

Lemma emits_ticks_then (p : Params R) (l : list R) (k : M unit)
    (es : list (entity R)) :
  draws k tt es ->
  emits (bind (for_each l (fun y =>
           bind (add_line (Vec2.mk (left_x p - lit 8) y) (Vec2.mk (left_x p) y) "CENTER")
             (fun _ => bind (lift (format_int y))
                (fun s => add_text s (Vec2.mk (left_x p - lit 40) (y - lit 3))
                                   "NOTES" (lit 8)))))
          (fun _ => k))
        (ticks_outcome l)
        (ticks_drawn p l ++ match ticks_outcome l with
                            | Ok _ => es
                            | Raise _ => []
                            end).
Proof.
  intros Hk. pose proof (emits_ticks p l) as Hl.
  destruct (ticks_outcome l) as [[] | e].
  - now apply emits_bind with (a := tt).
  - rewrite app_nil_r. now apply emits_raise.
Qed.

Lemma ticks_drawn_complete (p : Params R) (l : list R) :
  ticks_outcome l = Ok tt -> ticks_drawn p l = flat_map (station_tick p) l.
Proof.
  induction l as [| y l IH]; cbn [ticks_outcome ticks_drawn flat_map]; [reflexivity |].
  destruct (format_int y); [| discriminate].
  intros Hl. cbn [station_tick app]. now rewrite IH.
Qed.

Lemma drawn_complete (p : Params R) (first last : point R) :
  ticks_outcome (stations p) = Ok tt -> drawn p first last = drawing p first last.
Proof.
  intros Hl. unfold drawn, drawing. now rewrite (ticks_drawn_complete p _ Hl), Hl.
Qed.

(** With a profile that has a point, the build draws [drawn] and ends as
    the loop over the stations does. *)
Lemma build_emits (p : Params R) (first : point R) (rest : list (point R))
    (last : point R) :
  right_edge_profile p = first :: rest ->
  index_last (right_edge_profile p) = Ok last ->
  emits (build p) (ticks_outcome (stations p)) (drawn p first last).
Proof.
  intros Hp Hlast.
  assert (Hne : right_edge_profile p <> []) by (rewrite Hp; discriminate).
  unfold build. eapply emits_eq.
  - eapply emits_bind with (a := tt).
    { apply draws_for_each with (f := fun _ => []).
      intros a _. apply draws_add_layer_if_absent. }
    eapply emits_bind; [apply draws_lift, Hlast |].
    do 6 (eapply emits_bind with (a := tt); [apply draws_add_entity |]).
    eapply emits_bind with (a := tt).
    { apply draws_for_each with (f := fun y => [left_hole p y]).
      intros y _. apply draws_add_entity. }
    eapply emits_bind with (a := tt).
    { apply draws_for_each with (f := fun y => [right_hole p y]).
      intros y _. eapply draws_eq.
      - eapply draws_bind; [apply draws_lift, right_x_at_edge_x, Hne |].
        apply draws_add_entity.
      - reflexivity. }
    eapply emits_bind;
      [apply draws_lift, (index_last_map _ _ _ Hlast) |].
    eapply emits_bind with (a := tt); [apply draws_dashed_line |].
    eapply emits_bind with (a := tt); [apply draws_add_entity |].
    apply (emits_ticks_then p (stations p) _ (notes p)).
    apply (draws_bind _ _ tt tt [_] [_]); apply draws_add_entity.
  - rewrite Hp. rewrite !flat_map_single. cbn [flat_map app].
    unfold drawn, outline, bending_line.
    rewrite Hp. cbn [app Vec2.x]. rewrite <- !app_assoc. reflexivity.
Qed.

(** With an empty profile, the build stops at the bottom right corner,
    before anything is drawn. *)
Lemma build_fails (p : Params R) :
  right_edge_profile p = [] -> fails (build p) IndexError [].
Proof.
  intros Hp. unfold build.
  apply draws_then_fails with (a := tt) (es1 := []) (es2 := []).
  - eapply draws_eq.
    + apply draws_for_each with (f := fun _ => []).
      intros a _. apply draws_add_layer_if_absent.
    + reflexivity.
  - apply fails_bind. apply fails_lift. now rewrite Hp.
Qed.
End BuildLemmas.

(** ** Reading the drawing *)

Section DrawingLemmas.
Context {R : Type} `{Number R}.
Local Open Scope num_scope.

Lemma circles_on_app (layer : string) (es1 es2 : list (entity R)) :
  circles_on layer (es1 ++ es2) = circles_on layer es1 ++ circles_on layer es2.
Proof.
  induction es1 as [| e es1 IH]; [reflexivity |].
  destruct e; cbn; auto. destruct (String.eqb layer0 layer); cbn; congruence.
Qed.

Lemma circles_on_circles {A} (layer layer' : string) (c : A -> Vec2.t R)
    (r : A -> R) (l : list A) :
  circles_on layer (map (fun a => Circle (c a) (r a) layer') l)
  = if String.eqb layer' layer then map (fun a => (c a, r a)) l else [].
Proof.
  induction l as [| a l IH]; cbn.
  - now destruct (String.eqb layer' layer).
  - rewrite IH. now destruct (String.eqb layer' layer).
Qed.

Lemma circles_on_dashes (layer layer' : string) (p1 p2 : Vec2.t R) (l : list Z) :
  circles_on layer (map (dash p1 p2 layer') l) = [].
Proof. induction l as [| a l IH]; cbn; auto. Qed.

Lemma circles_on_ticks_drawn (layer : string) (p : Params R) (l : list R) :
  circles_on layer (ticks_drawn p l) = [].
Proof.
  induction l as [| y l IH]; cbn [ticks_drawn]; [reflexivity |].
  destruct (format_int y); cbn; auto.
Qed.

Lemma circles_on_drawn_left (p : Params R) (first last : point R) :
  circles_on "HOLES_L" (drawn p first last)
  = map (fun y => (Vec2.mk (left_x p + hole_offset_from_left p) y,
                   hole_dia p / lit 2)) (stations p).
Proof.
  unfold drawn, bending_line. rewrite !circles_on_app.
  unfold left_hole, right_hole. rewrite !circles_on_circles.
  rewrite circles_on_dashes, circles_on_ticks_drawn.
  destruct (ticks_outcome (stations p)); cbn; now rewrite app_nil_r.
Qed.

Lemma circles_on_drawn_right (p : Params R) (first last : point R) :
  circles_on "HOLES_R" (drawn p first last)
  = map (fun y => (Vec2.mk (edge_x (right_edge_profile p) y
                            - hole_offset_from_right p) y,
                   hole_dia p / lit 2)) (stations p).
Proof.
  unfold drawn, bending_line. rewrite !circles_on_app.
  unfold left_hole, right_hole. rewrite !circles_on_circles.
  rewrite circles_on_dashes, circles_on_ticks_drawn.
  destruct (ticks_outcome (stations p)); cbn; now rewrite app_nil_r.
Qed.

(** A run with a non-empty profile ends as the loop over the stations does,
    with [drawn] in the modelspace. *)
Lemma run_drawn (p : Params R) (first : point R) (rest : list (point R)) :
  right_edge_profile p = first :: rest ->
  exists last,
    index_last (right_edge_profile p) = Ok last /\
    fst (run p) = ticks_outcome (stations p) /\
    msp (snd (run p)) = drawn p first last.
Proof.
  intros Hp.
  destruct (index_last_nonempty (right_edge_profile p)) as [last Hlast];
    [rewrite Hp; discriminate |].
  exists last. split; [exact Hlast |].
  exact (build_emits p first rest last Hp Hlast ezdxf_new).
Qed.

(** A run that completes had a profile with a point and stations that
    [int] accepts, and has [drawing] in the modelspace. *)
Lemma run_completes (p : Params R) :
  fst (run p) = Ok tt ->
  exists first rest last,
    right_edge_profile p = first :: rest /\
    index_last (right_edge_profile p) = Ok last /\
    ticks_outcome (stations p) = Ok tt /\
    msp (snd (run p)) = drawing p first last.
Proof.
  intros Hok.
  destruct (right_edge_profile p) as [| first rest] eqn:Hp.
  - destruct (build_fails p Hp ezdxf_new) as [E _].
    unfold run in Hok. congruence.
  - destruct (run_drawn p first rest Hp) as (last & Hlast & Hr & Hmsp).
    exists first, rest, last. rewrite Hp in Hlast.
    assert (Ht : ticks_outcome (stations p) = Ok tt) by congruence.
    repeat split; auto.
    now rewrite Hmsp, (drawn_complete p first last Ht).
Qed.
End DrawingLemmas.

(** ** The build *)

(** C2: with a profile that has a point and whose breakpoints are numbers,
    the left holes of the build are, station by station, the circles of
    radius hole_dia/2 centred at (left_x + hole_offset_from_left, y), and
    its right holes the circles of radius hole_dia/2 centred at
    (right_x_at(y) - hole_offset_from_right, y): one of each per station, in
    station order, whether or not the run gets past the station labels.  In
    the end-to-end scenario the left hole is at (20,500) and the right hole
    at (355,500), in binary64 and in exact arithmetic. *)
Theorem holes_at_stations :
  (forall (R : Type) (N : Number R) (p : Params R),
      right_edge_profile p <> [] ->
      Forall (fun q => is_number (fst q)) (right_edge_profile p) ->
      circles_on "HOLES_L" (msp (snd (run p)))
      = map (fun y => (Vec2.mk (left_x p + hole_offset_from_left p) y,
                       hole_dia p / lit 2))%num (stations p) /\
      circles_on "HOLES_R" (msp (snd (run p)))
      = map (fun y => (Vec2.mk (edge_x (right_edge_profile p) y
                                - hole_offset_from_right p) y,
                       hole_dia p / lit 2))%num (stations p) /\
      Forall (fun y => right_x_at (right_edge_profile p) y
                       = Ok (edge_x (right_edge_profile p) y)) (stations p))
  /\ circles_on "HOLES_L" (msp (snd (run (R := float) scenario)))
     = [(Vec2.mk (lit 20) (lit 500), lit 7)]
  /\ circles_on "HOLES_R" (msp (snd (run (R := float) scenario)))
     = [(Vec2.mk (lit 355) (lit 500), lit 7)]
  /\ (exists cl rl cr rr : _,
        circles_on "HOLES_L" (msp (snd (run (R := Q) scenario))) = [(cl, rl)] /\
        circles_on "HOLES_R" (msp (snd (run (R := Q) scenario))) = [(cr, rr)] /\
        Vec2_eq cl (Vec2.mk 20 500) /\ Vec2_eq cr (Vec2.mk 355 500) /\
        2 * rl == 14 /\ 2 * rr == 14).
Proof.
  split; [| split; [| split]].
  - intros R N p Hne _.
    destruct (right_edge_profile p) as [| first rest] eqn:Hp; [congruence |].
    destruct (run_drawn p first rest Hp) as (last & _ & _ & Hmsp).
    rewrite Hmsp, circles_on_drawn_left, circles_on_drawn_right, Hp.
    repeat split; auto.
    apply Forall_forall. intros y _. now apply right_x_at_edge_x.
  - reflexivity.
  - reflexivity.
  - do 4 eexists. split; [reflexivity |]. split; [reflexivity |].
    repeat split; reflexivity.
Qed.

Lemma holes_at_stations_witness :
  right_edge_profile (R := float) default_params <> [] /\
  Forall (fun q => is_number (fst q)) (right_edge_profile (R := float) default_params) /\
  circles_on "HOLES_L" (msp (snd (run (R := float) default_params)))
  = map (fun y => (Vec2.mk (lit 20) y, lit 7)) (stations default_params) /\
  map snd (circles_on "HOLES_R" (msp (snd (run (R := float) default_params))))
  = map (fun _ => lit 7) (stations (R := float) default_params).
Proof.
  assert (Hnum : Forall (fun q => is_number (fst q))
                   (right_edge_profile (R := float) default_params))
    by (repeat constructor).
  split; [discriminate |]. split; [exact Hnum |].
  destruct (proj1 holes_at_stations float _ default_params) as (Hl & Hr & _).
  - discriminate.
  - exact Hnum.
  - split; [exact Hl |]. rewrite Hr. reflexivity.
Defined.

(** C7: with a profile that has a point, the build draws as many left holes
    as right holes, one of each per station. *)
Theorem hole_counts :
  forall (R : Type) (N : Number R) (p : Params R),
    right_edge_profile p <> [] ->
    List.length (circles_on "HOLES_L" (msp (snd (run p)))) = List.length (stations p) /\
    List.length (circles_on "HOLES_R" (msp (snd (run p)))) = List.length (stations p).
Proof.
  intros R N p Hne.
  destruct (right_edge_profile p) as [| first rest] eqn:Hp; [congruence |].
  destruct (run_drawn p first rest Hp) as (last & _ & _ & Hmsp).
  rewrite Hmsp, circles_on_drawn_left, circles_on_drawn_right.
  now rewrite !length_map.
Qed.

Lemma hole_counts_witness :
  right_edge_profile (R := float) default_params <> [] /\
  List.length (circles_on "HOLES_L" (msp (snd (run (R := float) default_params)))) = 7%nat /\
  List.length (circles_on "HOLES_R" (msp (snd (run (R := float) default_params)))) = 7%nat.
Proof.
  split; [discriminate |].
  apply (hole_counts float _ default_params). discriminate.
Defined.

(** C8: with a profile that has a point, the top edge (the third entity
    drawn) runs from the inner top left corner to the first profile point,
    taken as x = its distance from the left and y = its distance from the
    top; and the top right lip, which only enters the provisional corner,
    has no effect on the run. *)
Theorem top_right_from_profile :
  forall (R : Type) (N : Number R) (p : Params R)
         (first : point R) (rest : list (point R)),
    right_edge_profile p = first :: rest ->
    nth_error (msp (snd (run p))) 2
    = Some (Line (Vec2.mk (left_x p + top_left_flange p)%num (lit 0))
                 (Vec2.mk (snd first) (fst first)) "OUTLINE") /\
    forall w : R, run (with_top_right_flange w p) = run p.
Proof.
  intros R N p first rest Hp. split.
  - destruct (run_drawn p first rest Hp) as (last & _ & _ & Hmsp).
    rewrite Hmsp. reflexivity.
  - intros w. unfold run, build. cbn. rewrite Hp. reflexivity.
Qed.

Lemma top_right_from_profile_witness :
  nth_error (msp (snd (run (R := float) default_params))) 2
  = Some (Line (Vec2.mk (lit 35) (lit 0)) (Vec2.mk (lit 385) (lit 0)) "OUTLINE") /\
  forall w : float, run (with_top_right_flange w default_params) = run default_params.
Proof.
  exact (top_right_from_profile float _ default_params
           (lit 0, lit 385)
           (List.tl (right_edge_profile default_params)) eq_refl).
Defined.


(** C5 (as stated, refuted): with the shipped parameters and an empty
    profile, the run does not fail with a ConfigurationError. *)
Lemma empty_profile_counterexample :
  right_edge_profile (R := float) (with_profile [] default_params) = [] /\
  ~ (exists field : string,
       fst (run (R := float) (with_profile [] default_params))
       = Raise (ConfigurationError field)).
Proof.
  split; [reflexivity |]. intros [field E]. vm_compute in E. discriminate.
Qed.

(** C5 (amended): with an empty profile the run fails with an IndexError,
    raised where the last profile point is read for the bottom right
    corner; nothing has been drawn by then. *)
Theorem empty_profile_fails :
  forall (R : Type) (N : Number R) (p : Params R),
    right_edge_profile p = [] ->
    fst (run p) = Raise IndexError /\ msp (snd (run p)) = [].
Proof.
  intros R N p Hp. exact (build_fails p Hp ezdxf_new).
Qed.

Lemma empty_profile_fails_witness :
  right_edge_profile (R := float) (with_profile [] default_params) = [] /\
  fst (run (R := float) (with_profile [] default_params)) = Raise IndexError /\
  msp (snd (run (R := float) (with_profile [] default_params))) = [].
Proof.
  split; [reflexivity |].
  apply (empty_profile_fails float _ (with_profile [] default_params)).
  reflexivity.
Defined.

(** ** The dashed line *)

Section DashLemmas.
Context {R : Type} `{Number R}.
Local Open Scope num_scope.

Lemma lines_on_dashes (layer : string) (p1 p2 : Vec2.t R) (l : list Z) :
  lines_on layer (map (dash p1 p2 layer) l)
  = map (fun i => (Vec2.lerp p1 p2 (lit i / lit segs),
                   Vec2.lerp p1 p2 (lit (i + 1) / lit segs))) l.
Proof.
  induction l as [| i l IH]; cbn; [reflexivity |].
  now rewrite String.eqb_refl, IH.
Qed.

(** Starting in the draw state and toggling after every interval, the
    loop draws the even intervals of [range 80] and no other. *)
Lemma alternate_range_segs :
  alternate true (range segs) = map (fun k => 2 * k)%Z (range 40).
Proof. reflexivity. Qed.

Lemma drawn_by_dashed_line_eq (p1 p2 : Vec2.t R) :
  drawn_by_dashed_line p1 p2
  = map (fun i => (Vec2.lerp p1 p2 (lit i / lit segs),
                   Vec2.lerp p1 p2 (lit (i + 1) / lit segs)))
        (map (fun k => 2 * k)%Z (range 40)).
Proof.
  unfold drawn_by_dashed_line.
  destruct (draws_dashed_line p1 p2 "CENTER" ezdxf_new) as [_ ->].
  cbn [msp ezdxf_new app]. now rewrite lines_on_dashes, alternate_range_segs.
Qed.
End DashLemmas.

(** In exact arithmetic, a point of the segment at a parameter other than 1
    is the end point only if the segment is a single point. *)
Lemma lerp_reaches_end (p1 p2 : Vec2.t Q) (t : Q) :
  ~ t == 1 -> Vec2_eq (Vec2.lerp p1 p2 t) p2 -> Vec2_eq p1 p2.
Proof.
  intros Ht [Ex Ey]. cbn in Ex, Ey.
  assert (Hz : forall a b : Q, a + (b - a) * t == b -> a == b).
  { intros a b E.
    assert (E' : (b - a) * (t - 1) == 0) by lra.
    apply Qmult_integral in E' as [E' | E']; [lra | exfalso; apply Ht; lra]. }
  split; now apply Hz.
Qed.

(** C6 (as stated, refuted): in binary64 the drawn sub-segments of the
    dashed line from (0,0) to (800,0) do not all have length 10.  The sixth
    one covers the interval 10: it starts at x = 800 * (10/80) = 100 and ends
    at x = 800 * (11/80), which is rounded to 110 + 2^-46. *)
Lemma dashed_line_length_counterexample :
  ~ Forall (fun ab => sq_length (Vec2_to_Q (fst ab), Vec2_to_Q (snd ab)) == 10 * 10)
           (drawn_by_dashed_line (R := float)
              (Vec2.mk (lit 0) (lit 0)) (Vec2.mk (lit 800) (lit 0)))
  /\ (exists a b : Vec2.t float,
        nth_error (drawn_by_dashed_line (R := float)
                     (Vec2.mk (lit 0) (lit 0)) (Vec2.mk (lit 800) (lit 0))) 5
        = Some (a, b) /\
        Vec2_eq (Vec2_to_Q a) (Vec2.mk 100 0) /\
        float_to_Q (Vec2.x b) == 110 + (1 # 2 ^ 46) /\
        float_to_Q (Vec2.y b) == 0).
Proof.
  split.
  - intros Hall. rewrite Forall_forall in Hall.
    specialize (Hall (Vec2.mk (lit 100) (lit 0),
                      Vec2.lerp (Vec2.mk (lit 0) (lit 0)) (Vec2.mk (lit 800) (lit 0))
                                (lit 11 / lit 80)%num)).
    assert (E : sq_length
                  (Vec2_to_Q (Vec2.mk (R := float) (lit 100) (lit 0)),
                   Vec2_to_Q (Vec2.lerp (R := float) (Vec2.mk (lit 0) (lit 0))
                                (Vec2.mk (lit 800) (lit 0)) (lit 11 / lit 80)%num))
                == 10 * 10).
    { apply Hall. rewrite drawn_by_dashed_line_eq.
      apply (in_map_iff _ _ _). exists 10%Z. split; [reflexivity |].
      apply (in_map_iff _ _ _). exists 5%Z. split; [reflexivity |].
      vm_compute. tauto. }
    vm_compute in E. discriminate.
  - do 2 eexists. split; [reflexivity |].
    split; [split; vm_compute; reflexivity |].
    split; vm_compute; reflexivity.
Qed.

(** C6 (amended): for P1 = (0,0) and P2 = (800,0), dashed_line cuts [0,1]
    into 80 equal intervals, starts in the draw state, toggles after every
    interval, and so draws exactly the 40 sub-segments over the even
    intervals.  In exact arithmetic each has length 10; in binary64 each has
    a length within 10^-13 of 10. *)
Theorem dashed_line_lengths :
  (forall (R : Type) (N : Number R),
      drawn_by_dashed_line (R := R) (Vec2.mk (lit 0) (lit 0)) (Vec2.mk (lit 800) (lit 0))
      = map (fun i => (Vec2.lerp (Vec2.mk (lit 0) (lit 0)) (Vec2.mk (lit 800) (lit 0))
                                 (lit i / lit 80)%num,
                       Vec2.lerp (Vec2.mk (lit 0) (lit 0)) (Vec2.mk (lit 800) (lit 0))
                                 (lit (i + 1) / lit 80)%num))
            (alternate true (range 80))
      /\ List.length (drawn_by_dashed_line (R := R)
                        (Vec2.mk (lit 0) (lit 0)) (Vec2.mk (lit 800) (lit 0))) = 40%nat)
  /\ Forall (fun ab => sq_length ab == 10 * 10)
            (drawn_by_dashed_line (R := Q)
               (Vec2.mk (lit 0) (lit 0)) (Vec2.mk (lit 800) (lit 0)))
  /\ Forall (fun ab =>
               (10 - (1 # 10 ^ 13)) * (10 - (1 # 10 ^ 13))
               <= sq_length (Vec2_to_Q (fst ab), Vec2_to_Q (snd ab))
               <= (10 + (1 # 10 ^ 13)) * (10 + (1 # 10 ^ 13)))
            (drawn_by_dashed_line (R := float)
               (Vec2.mk (lit 0) (lit 0)) (Vec2.mk (lit 800) (lit 0))).
Proof.
  split; [| split].
  - intros R N. rewrite drawn_by_dashed_line_eq. split; [reflexivity |].
    now rewrite !length_map.
  - apply Forall_forall. intros ab Hab.
    assert (Hb : forallb (fun ab => Qeq_bool (sq_length ab) (10 * 10))
                   (drawn_by_dashed_line (R := Q)
                      (Vec2.mk (lit 0) (lit 0)) (Vec2.mk (lit 800) (lit 0)))
                 = true) by (vm_compute; reflexivity).
    rewrite forallb_forall in Hb. apply Qeq_bool_iff. apply Hb. exact Hab.
  - apply Forall_forall. intros ab Hab.
    assert (Hb : forallb
              (fun ab =>
                 Qle_bool ((10 - (1 # 10 ^ 13)) * (10 - (1 # 10 ^ 13)))
                          (sq_length (Vec2_to_Q (fst ab), Vec2_to_Q (snd ab)))
                 && Qle_bool (sq_length (Vec2_to_Q (fst ab), Vec2_to_Q (snd ab)))
                             ((10 + (1 # 10 ^ 13)) * (10 + (1 # 10 ^ 13))))
              (drawn_by_dashed_line (R := float)
                 (Vec2.mk (lit 0) (lit 0)) (Vec2.mk (lit 800) (lit 0)))
            = true) by (vm_compute; reflexivity).
    rewrite forallb_forall in Hb. specialize (Hb ab Hab).
    apply andb_true_iff in Hb as [H1 H2].
    apply Qle_bool_iff in H1. apply Qle_bool_iff in H2.
    split; assumption.
Qed.

Lemma In_range (n k : Z) : In k (range n) <-> (0 <= k < n)%Z.
Proof.
  unfold range. rewrite in_map_iff. split.
  - intros (j & <- & Hj). apply in_seq in Hj. lia.
  - intros Hk. exists (Z.to_nat k). split; [lia |]. apply in_seq. lia.
Qed.

Lemma parameter_below_one (i : Z) :
  (0 <= i < segs)%Z -> ~ (lit i / lit segs)%num == 1.
Proof.
  intros Hi E. cbn in E. unfold segs in *.
  assert (E' : inject_Z i == inject_Z 80).
  { setoid_replace (inject_Z i) with (inject_Z i / inject_Z 80 * inject_Z 80)
      by (field; discriminate).
    rewrite E. ring. }
  apply (proj1 (inject_Z_injective i 80)) in E'. lia.
Qed.

(** C10 (as stated, refuted): when both end points are the same point,
    every drawn sub-segment has P2 as an end point. *)
Lemma dashed_line_end_counterexample :
  ~ (forall p1 p2 : Vec2.t float,
       Forall (fun ab => fst ab <> p2 /\ snd ab <> p2)
              (drawn_by_dashed_line p1 p2)).
Proof.
  intros Hclaim.
  specialize (Hclaim (Vec2.mk (lit 0) (lit 0)) (Vec2.mk (lit 0) (lit 0))).
  rewrite Forall_forall in Hclaim.
  destruct (Hclaim (Vec2.mk (lit 0) (lit 0), Vec2.mk (lit 0) (lit 0))) as [Ha _].
  - rewrite drawn_by_dashed_line_eq. left. reflexivity.
  - now apply Ha.
Qed.

(** C10 (amended): for every pair of end points, dashed_line draws exactly
    the even intervals i = 0, 2, ..., 78 of the 80 intervals, each from the
    point at parameter i/80 to the point at (i+1)/80; the last interval, 79,
    is not drawn, and the last drawn sub-segment ends at parameter 79/80.
    In exact arithmetic, when P1 and P2 differ, no drawn sub-segment has P2
    as an end point. *)
Theorem dashed_line_even_intervals :
  (forall (R : Type) (N : Number R) (p1 p2 : Vec2.t R),
      drawn_by_dashed_line p1 p2
      = map (fun i => (Vec2.lerp p1 p2 (lit i / lit 80)%num,
                       Vec2.lerp p1 p2 (lit (i + 1) / lit 80)%num))
            (alternate true (range 80))
      /\ nth_error (drawn_by_dashed_line p1 p2) 39
         = Some (Vec2.lerp p1 p2 (lit 78 / lit 80)%num,
                 Vec2.lerp p1 p2 (lit 79 / lit 80)%num)
      /\ List.length (drawn_by_dashed_line p1 p2) = 40%nat)
  /\ (forall i : Z,
        In i (alternate true (range 80)) <-> (0 <= i < 80)%Z /\ Z.even i = true)
  /\ ~ In 79%Z (alternate true (range 80))
  /\ (forall p1 p2 : Vec2.t Q,
        ~ Vec2_eq p1 p2 ->
        Forall (fun ab => ~ Vec2_eq (fst ab) p2 /\ ~ Vec2_eq (snd ab) p2)
               (drawn_by_dashed_line p1 p2)).
Proof.
  assert (Heven : forall i : Z,
             In i (alternate true (range 80)) <-> (0 <= i < 80)%Z /\ Z.even i = true).
  { intros i. change (range 80) with (range segs).
    rewrite alternate_range_segs, in_map_iff. split.
    - intros (k & <- & Hk). apply In_range in Hk.
      split; [lia |]. now rewrite Z.even_mul.
    - intros [Hi He]. apply Z.even_spec in He as [k ->].
      exists k. split; [reflexivity |]. apply In_range. lia. }
  split; [| split; [| split]].
  - intros R N p1 p2. rewrite drawn_by_dashed_line_eq.
    split; [reflexivity |]. split; [reflexivity |]. now rewrite !length_map.
  - exact Heven.
  - intros Hin. apply Heven in Hin as [_ He]. discriminate.
  - intros p1 p2 Hne. rewrite drawn_by_dashed_line_eq.
    apply Forall_forall. intros ab Hab.
    apply in_map_iff in Hab as (i & <- & Hi).
    apply in_map_iff in Hi as (k & <- & Hk). apply In_range in Hk.
    cbn [fst snd]. split; intros E; apply Hne.
    + apply (lerp_reaches_end p1 p2 _ (parameter_below_one (2 * k) ltac:(unfold segs; lia)) E).
    + apply (lerp_reaches_end p1 p2 _ (parameter_below_one (2 * k + 1) ltac:(unfold segs; lia)) E).
Qed.

Lemma dashed_line_even_intervals_witness :
  ~ Vec2_eq (Vec2.mk 0 1385) (Vec2.mk 345 1385) /\
  Forall (fun ab => ~ Vec2_eq (fst ab) (Vec2.mk 345 1385) /\
                    ~ Vec2_eq (snd ab) (Vec2.mk 345 1385))
         (drawn_by_dashed_line (R := Q) (Vec2.mk 0 1385) (Vec2.mk 345 1385)).
Proof.
  assert (Hne : ~ Vec2_eq (Vec2.mk 0 1385) (Vec2.mk 345 1385)).
  { intros [E _]. cbn in E. discriminate. }
  split; [exact Hne |].
  exact (proj2 (proj2 (proj2 dashed_line_even_intervals)) _ _ Hne).
Defined.

(** * Further properties *)

(** ** The profile interpolator on arbitrary profiles *)

Section RightXAtFurther.
Context {R : Type} `{NumberOrder R}.
Local Open Scope num_scope.

(** Sorting twice is sorting once. *)
Lemma sorted_sorted (rp : list (point R)) :
  Forall (fun q => is_number (fst q)) rp -> sorted (sorted rp) = sorted rp.
Proof. intros Hnum. apply sorted_ascending. now apply sorted_is_ascending. Qed.

Lemma right_x_at_sorted (rp : list (point R)) (y : R) :
  Forall (fun q => is_number (fst q)) rp ->
  right_x_at (sorted rp) y = right_x_at rp y.
Proof. intros Hnum. unfold right_x_at. now rewrite sorted_sorted. Qed.

(** Inserting two points with breakpoints one strictly below the other
    gives the same list in either order. *)
Lemma insert_by_key_comm (a b : point R) (l : list (point R)) :
  nltb (fst a) (fst b) = true ->
  insert_by_key a (insert_by_key b l) = insert_by_key b (insert_by_key a l).
Proof.
  intros Hab. apply nltb_true in Hab as [Hab Hba].
  induction l as [| q l IH]; cbn [insert_by_key].
  - now rewrite Hab, Hba.
  - destruct (fst b <=? fst q) eqn:Ebq.
    + rewrite (nleb_trans _ _ _ Hab Ebq). cbn [insert_by_key].
      now rewrite Hab, Hba, Ebq.
    + destruct (fst a <=? fst q) eqn:Eaq; cbn [insert_by_key].
      * now rewrite Eaq, Hba, Ebq.
      * now rewrite Eaq, Ebq, IH.
Qed.

Lemma sorted_permutation (rp rp' : list (point R)) :
  Permutation rp rp' -> distinct_breakpoints rp -> sorted rp = sorted rp'.
Proof.
  induction 1 as [| x l l' Hperm IH | x y l | l l' l'' H1 IH1 H2 IH2]; intros Hd.
  - reflexivity.
  - cbn. fold (sorted l) (sorted l'). rewrite IH; [reflexivity |].
    intros p q Hp Hq. apply Hd; now right.
  - cbn. fold (sorted l).
    destruct (Hd x y) as [E | [E | E]]; [right; now left | now left | | |].
    + now subst.
    + symmetry. now apply insert_by_key_comm.
    + now apply insert_by_key_comm.
  - rewrite IH1 by exact Hd. apply IH2.
    intros p q Hp Hq.
    apply Hd; apply (Permutation_in _ (Permutation_sym H1)); assumption.
Qed.
End RightXAtFurther.

(** X1: [right_x_at] raises exactly on the empty profile, and then an
    IndexError; on a profile of one point it returns that point's offset for
    every query, whatever the arithmetic. *)
Theorem right_x_at_small_profiles :
  forall (R : Type) (N : Number R) (rp : list (point R)) (p : point R) (y : R),
    (right_x_at rp y = Raise IndexError <-> rp = []) /\
    ((exists v, right_x_at rp y = Ok v) <-> rp <> []) /\
    right_x_at [p] y = Ok (snd p).
Proof.
  intros R N rp p y. split; [| split].
  - split.
    + intros E. destruct rp as [| q rp']; [reflexivity |].
      destruct (right_x_at_returns (q :: rp') y) as [v Hv]; [discriminate |].
      congruence.
    + now intros ->.
  - split.
    + intros [v Hv] ->. discriminate.
    + apply right_x_at_returns.
  - unfold right_x_at. cbn.
    destruct (y <=? fst p)%num; [reflexivity |].
    destruct (fst p <=? y)%num; reflexivity.
Qed.

(** X2: the profile need not be given sorted.  For any profile whose
    breakpoints are numbers and any query strictly between its smallest and
    its largest breakpoint, the answer is the plain interpolation
    x0 + (y-y0)/(y1-y0)*(x1-x0) on two consecutive points of the sorted
    profile that bracket the query: neither the guard for y1 == y0 nor the
    return after the loop is used. *)
Theorem right_x_at_unsorted :
  forall (R : Type) (N : Number R) (O : NumberOrder R)
         (rp : list (point R)) (first last : point R) (y : R),
    Forall (fun q => is_number (fst q)) rp ->
    index_first (sorted rp) = Ok first -> index_last (sorted rp) = Ok last ->
    nltb (fst first) y = true -> nltb y (fst last) = true ->
    exists pre y0 x0 y1 x1 post,
      sorted rp = pre ++ (y0, x0) :: (y1, x1) :: post /\
      In (y0, x0) rp /\ In (y1, x1) rp /\
      (y0 <=? y)%num = true /\ (y <=? y1)%num = true /\ (y1 =? y0)%num = false /\
      right_x_at rp y = Ok (x0 + (y - y0) / (y1 - y0) * (x1 - x0))%num.
Proof.
  intros R N O rp first last y Hnum Hfirst Hlast Hlo Hhi.
  destruct (right_x_at_bracket (sorted rp) first last y
              (sorted_is_ascending rp Hnum) Hfirst Hlast Hlo Hhi)
    as (pre & y0 & x0 & y1 & x1 & post & Es & H0 & H1 & Hne & Hv).
  exists pre, y0, x0, y1, x1, post.
  rewrite right_x_at_sorted in Hv by exact Hnum.
  repeat split; auto.
  - apply (proj1 (sorted_In (y0, x0) rp)). rewrite Es.
    apply in_or_app. right. now left.
  - apply (proj1 (sorted_In (y1, x1) rp)). rewrite Es.
    apply in_or_app. right. right. now left.
Qed.

Lemma right_x_at_unsorted_witness :
  exists pre y0 x0 y1 x1 post,
    sorted (R := float) (rev two_point_profile) = pre ++ (y0, x0) :: (y1, x1) :: post /\
    In (y0, x0) (rev two_point_profile) /\ In (y1, x1) (rev two_point_profile) /\
    (y0 <=? lit 500)%num = true /\ (lit 500 <=? y1)%num = true /\
    (y1 =? y0)%num = false /\
    right_x_at (R := float) (rev two_point_profile) (lit 500)
    = Ok (x0 + (lit 500 - y0) / (y1 - y0) * (x1 - x0))%num.
Proof.
  apply (right_x_at_unsorted float _ _ (rev two_point_profile)
           (lit 0, lit 350)%num (lit 1000, lit 400)%num (lit 500)).
  - repeat constructor.
  - reflexivity.
  - reflexivity.
  - reflexivity.
  - reflexivity.
Defined.

(** X3: when no two different points of the profile share a breakpoint, the
    order in which the profile lists its points does not matter. *)
Theorem right_x_at_order_irrelevant :
  forall (R : Type) (N : Number R) (O : NumberOrder R)
         (rp rp' : list (point R)) (y : R),
    Permutation rp rp' -> distinct_breakpoints rp ->
    right_x_at rp y = right_x_at rp' y.
Proof.
  intros R N O rp rp' y Hperm Hd. unfold right_x_at.
  now rewrite (sorted_permutation rp rp' Hperm Hd).
Qed.

Lemma right_x_at_order_irrelevant_witness :
  right_x_at (R := float) two_point_profile (lit 500)
  = right_x_at (R := float) (rev two_point_profile) (lit 500).
Proof.
  apply (right_x_at_order_irrelevant float _ _).
  - apply perm_swap.
  - intros p q [<- | [<- | []]] [<- | [<- | []]];
      first [ now left | right; left; reflexivity | right; right; reflexivity ].
Defined.

Lemma leb_nan_r (x : float) : PrimFloat.leb x nan = false.
Proof.
  rewrite leb_spec. change (Prim2SF nan) with S754_nan.
  unfold SFleb, SFcompare. now destruct (Prim2SF x).
Qed.

Lemma leb_nan_l (x : float) : PrimFloat.leb nan x = false.
Proof.
  rewrite leb_spec. change (Prim2SF nan) with S754_nan. reflexivity.
Qed.

Lemma find_span_nan (spans : list (point float * point float)) :
  find_span spans nan = None.
Proof.
  induction spans as [| [p0 p1] spans IH]; [reflexivity |].
  cbn. now rewrite leb_nan_l, andb_false_r.
Qed.

(** X4: in binary64, on a profile whose breakpoints are numbers, a NaN
    query passes both clamps and every span test, and is answered by the
    return after the loop: the offset of the last point of the sorted
    profile, a point with the largest breakpoint. *)
Theorem right_x_at_nan :
  forall rp : list (point float),
    rp <> [] ->
    Forall (fun q => is_number (fst q)) rp ->
    exists last,
      index_last (sorted rp) = Ok last /\ In last rp /\
      Forall (fun q => (fst q <=? fst last)%num = true) rp /\
      right_x_at rp nan = Ok (snd last).
Proof.
  intros rp Hne Hnum.
  enough (Hmain : exists last,
             index_last (sorted rp) = Ok last /\ right_x_at rp nan = Ok (snd last)).
  { destruct Hmain as (last & Hlast & Hv). exists last.
    assert (Hnum' : Forall (fun q => is_number (fst q)) (sorted rp)).
    { apply Forall_forall. intros q Hq. rewrite sorted_In in Hq.
      rewrite Forall_forall in Hnum. now apply Hnum. }
    pose proof (ascending_le_last _ last (sorted_is_ascending rp Hnum) Hnum' Hlast) as Hle.
    rewrite Forall_forall in Hle.
    repeat split; auto.
    - apply (proj1 (sorted_In last rp)). now apply index_last_In.
    - apply Forall_forall. intros q Hq. apply Hle. now apply sorted_In. }
  assert (Hs : sorted rp <> []).
  { intros E. apply Hne. apply length_zero_iff_nil.
    now rewrite <- sorted_length, E. }
  destruct (index_last_nonempty _ Hs) as [last Hlast].
  exists last. split; [exact Hlast |].
  unfold right_x_at. destruct (sorted rp) as [| first l] eqn:Es; [congruence |].
  cbn [index_first result_bind]. cbn [nleb float_Number].
  rewrite leb_nan_l, Hlast. cbn [result_bind]. rewrite leb_nan_r.
  now rewrite find_span_nan.
Qed.

Lemma right_x_at_nan_witness :
  exists last : point float,
    index_last (sorted two_point_profile) = Ok last /\
    right_x_at two_point_profile nan = Ok (snd last).
Proof.
  destruct (right_x_at_nan two_point_profile) as (last & Hlast & _ & _ & Hv).
  - discriminate.
  - repeat constructor.
  - exists last. now split.
Defined.

(** ** Exact arithmetic: the interpolated edge stays within the profile *)

Lemma find_span_found {R : Type} `{Number R}
    (spans : list (point R * point R)) (y v : R) :
  find_span spans y = Some v ->
  exists p0 p1,
    In (p0, p1) spans /\
    (fst p0 <=? y)%num = true /\ (y <=? fst p1)%num = true /\
    v = span_x p0 p1 y.
Proof.
  induction spans as [| [p0 p1] spans IH]; [discriminate |].
  cbn [find_span].
  destruct ((fst p0 <=? y)%num && (y <=? fst p1)%num) eqn:E.
  - intros [= <-]. apply andb_true_iff in E as [E0 E1].
    exists p0, p1. repeat split; auto. now left.
  - intros Hv. destruct (IH Hv) as (q0 & q1 & Hin & Hq).
    exists q0, q1. split; [now right | exact Hq].
Qed.

Lemma in_combine_tl {A} (l : list A) (a b : A) :
  In (a, b) (combine l (tl l)) -> In a l /\ In b l.
Proof.
  intros Hin. split.
  - eapply in_combine_l. exact Hin.
  - apply in_combine_r in Hin. destruct l; [contradiction | now right].
Qed.

Lemma Qbetween_refl (a : Q) : Qbetween a a a.
Proof. left. split; apply Qle_refl. Qed.

Lemma span_x_between (p0 p1 : point Q) (y : Q) :
  fst p0 <= y -> y <= fst p1 ->
  Qbetween (snd p0) (span_x p0 p1 y) (snd p1).
Proof.
  destruct p0 as [y0 x0], p1 as [y1 x1]. cbn. intros H0 H1.
  destruct (Qeq_bool y1 y0) eqn:Eb; cbn.
  - assert (E : x0 + inject_Z 0 * (x1 - x0) == x0) by ring.
    destruct (Qlt_le_dec x1 x0); [right | left]; rewrite E; split; lra.
  - apply Qeq_bool_neq in Eb.
    assert (Hpos : 0 < y1 - y0).
    { destruct (Qlt_le_dec y0 y1); [lra |]. exfalso. apply Eb. lra. }
    assert (Ht0 : 0 <= (y - y0) / (y1 - y0)).
    { apply Qle_shift_div_l; [exact Hpos | lra]. }
    assert (Ht1 : (y - y0) / (y1 - y0) <= 1).
    { apply Qle_shift_div_r; [exact Hpos | lra]. }
    destruct (Qlt_le_dec x1 x0); [right | left]; split; nra.
Qed.

(** X5: in exact arithmetic every value of [right_x_at] lies between the
    offsets of two points of the profile, so the interpolated edge never
    leaves the range of offsets the profile lists. *)
Theorem right_x_at_within_profile :
  forall (rp : list (point Q)) (y v : Q),
    right_x_at rp y = Ok v ->
    exists p q, In p rp /\ In q rp /\ Qbetween (snd p) v (snd q).
Proof.
  intros rp y v Hv. unfold right_x_at in Hv.
  destruct (sorted rp) as [| first l] eqn:Es; [discriminate |].
  assert (Hin : forall q, In q (first :: l) -> In q rp).
  { intros q Hq. apply (proj1 (sorted_In q rp)). now rewrite Es. }
  cbn [index_first result_bind] in Hv.
  destruct (y <=? fst first)%num.
  { injection Hv as <-. exists first, first.
    repeat split; try (apply Hin; now left). apply Qbetween_refl. }
  destruct (index_last (first :: l)) as [last | e] eqn:Hlast; [| discriminate].
  cbn [result_bind] in Hv.
  assert (Hl : In last rp) by (apply Hin; now apply index_last_In).
  destruct (fst last <=? y)%num.
  { injection Hv as <-. exists last, last. repeat split; auto. apply Qbetween_refl. }
  destruct (find_span (combine (first :: l) (tl (first :: l))) y) as [w |] eqn:Hf.
  - injection Hv as <-.
    destruct (find_span_found _ _ _ Hf) as (p0 & p1 & Hp & H0 & H1 & ->).
    apply in_combine_tl in Hp as [Hp0 Hp1].
    exists p0, p1. repeat split; try (now apply Hin).
    apply span_x_between; now apply Qle_bool_iff.
  - injection Hv as <-. exists last, last. repeat split; auto. apply Qbetween_refl.
Qed.

Lemma right_x_at_within_profile_witness :
  exists p q : point Q,
    In p bent_profile /\ In q bent_profile /\
    Qbetween (snd p) (edge_x bent_profile (lit 1)) (snd q).
Proof.
  exact (right_x_at_within_profile bent_profile (lit 1)
           (edge_x bent_profile (lit 1)) eq_refl).
Defined.

(** ** The layer table *)

Section LayerLemmas.
Context {R : Type} `{Number R}.
Local Open Scope num_scope.

Lemma keeps_layers_ret {A} (a : A) : keeps_layers (R := R) (ret a).
Proof. now intros d. Qed.

Lemma keeps_layers_lift {A} (r : result A) : keeps_layers (R := R) (lift r).
Proof. now intros d. Qed.

Lemma keeps_layers_add_entity (e : entity R) : keeps_layers (add_entity e).
Proof. now intros d. Qed.

(** After [m ;; k], the layer table is the one [m] leaves, when no [k a]
    touches it, whether or not an exception is raised. *)
Lemma layers_bind {A B} (m : M (R := R) A) (k : A -> M (R := R) B) (d : Doc R) :
  (forall a, keeps_layers (k a)) ->
  layers (snd (bind m k d)) = layers (snd (m d)).
Proof.
  intros Hk. unfold bind. destruct (m d) as [[a | e] d']; cbn; [apply Hk | reflexivity].
Qed.

Lemma keeps_layers_bind {A B} (m : M (R := R) A) (k : A -> M (R := R) B) :
  keeps_layers m -> (forall a, keeps_layers (k a)) -> keeps_layers (bind m k).
Proof. intros Hm Hk d. now rewrite layers_bind, Hm. Qed.

Lemma keeps_layers_for_each {A} (l : list A) (body : A -> M (R := R) unit) :
  (forall a, keeps_layers (body a)) -> keeps_layers (for_each l body).
Proof.
  intros Hbody. induction l as [| a l IH]; cbn [for_each].
  - apply keeps_layers_ret.
  - apply keeps_layers_bind; [apply Hbody | intros _; exact IH].
Qed.

Lemma keeps_layers_dashed_line (p1 p2 : Vec2.t R) (layer : string) :
  keeps_layers (dashed_line p1 p2 layer).
Proof.
  unfold dashed_line. generalize (range segs), true.
  intros indices. induction indices as [| i rest IH]; intros on; cbn [dashed_loop].
  - apply keeps_layers_ret.
  - apply keeps_layers_bind; [| intros on'; apply IH].
    unfold dashed_step. apply keeps_layers_bind; [| intros _; apply keeps_layers_ret].
    destruct on; [apply keeps_layers_add_entity | apply keeps_layers_ret].
Qed.

(** The loop over the layer names computes [register] on the layer table. *)
Lemma layers_for_each_add (l : list (string * Z)) (d : Doc R) :
  layers (snd (for_each l (fun nc => add_layer_if_absent (fst nc) (snd nc)) d))
  = register l (layers d).
Proof.
  revert d. induction l as [| nc l IH]; intros d; cbn [for_each register].
  - reflexivity.
  - unfold bind. unfold add_layer_if_absent at 1.
    destruct (in_layers (fst nc) (layers d)); now rewrite IH.
Qed.

Lemma build_layers (p : Params R) (d : Doc R) :
  layers (snd (build p d)) = register script_layers (layers d).
Proof.
  unfold build. rewrite layers_bind.
  - apply layers_for_each_add.
  - intros _.
    apply keeps_layers_bind; [apply keeps_layers_lift | intros last].
    do 6 (apply keeps_layers_bind; [apply keeps_layers_add_entity | intros _]).
    apply keeps_layers_bind.
    { apply keeps_layers_for_each. intros y. apply keeps_layers_add_entity. }
    intros _. apply keeps_layers_bind.
    { apply keeps_layers_for_each. intros y.
      apply keeps_layers_bind; [apply keeps_layers_lift | intros edge].
      apply keeps_layers_add_entity. }
    intros _.
    apply keeps_layers_bind; [apply keeps_layers_lift | intros last_pt].
    apply keeps_layers_bind; [apply keeps_layers_dashed_line | intros _].
    apply keeps_layers_bind; [apply keeps_layers_add_entity | intros _].
    apply keeps_layers_bind.
    { apply keeps_layers_for_each. intros y.
      apply keeps_layers_bind; [apply keeps_layers_add_entity | intros _].
      apply keeps_layers_bind; [apply keeps_layers_lift | intros s].
      apply keeps_layers_add_entity. }
    intros _.
    apply keeps_layers_bind; [apply keeps_layers_add_entity | intros _].
    apply keeps_layers_add_entity.
Qed.

(** The layer table after a run, from the fresh document. *)
Lemma run_layers (p : Params R) :
  layers (snd (run p)) = layers (ezdxf_new (R := R)) ++ script_layers.
Proof. unfold run. rewrite build_layers. reflexivity. Qed.

Lemma run_has_script_layers (p : Params R) (nc : string * Z) :
  In nc script_layers -> has_layer (fst nc) (snd (run p)) = true.
Proof.
  intros Hnc. unfold has_layer. rewrite run_layers.
  cbn in Hnc. repeat destruct Hnc as [<- | Hnc]; try reflexivity. contradiction.
Qed.
End LayerLemmas.

(** X6: a run, whether it completes or fails, leaves the layer table of the
    fresh document extended by the five layers OUTLINE, HOLES_L, HOLES_R,
    CENTER, NOTES, in script order and with their colours; all five names
    are present afterwards, and a second build on the resulting document
    adds no layer. *)
Theorem build_registers_layers :
  forall (R : Type) (N : Number R) (p : Params R),
    layers (snd (run p)) = layers (ezdxf_new (R := R)) ++ script_layers /\
    Forall (fun nc => has_layer (fst nc) (snd (run p)) = true) script_layers /\
    layers (snd (build p (snd (run p)))) = layers (snd (run p)).
Proof.
  intros R N p. split; [apply run_layers |]. split.
  - apply Forall_forall. intros nc Hnc. now apply run_has_script_layers.
  - rewrite build_layers, run_layers. reflexivity.
Qed.

(** ** The drawing, layer by layer *)

Section CensusLemmas.
Context {R : Type} `{Number R}.
Local Open Scope num_scope.

Lemma length_filter_map {A B} (f : B -> bool) (g : A -> B) (b : bool) (l : list A) :
  (forall a, f (g a) = b) ->
  List.length (filter f (map g l)) = if b then List.length l else 0%nat.
Proof.
  intros Hfg. induction l as [| a l IH]; cbn; [now destruct b |].
  rewrite Hfg. destruct b; cbn; congruence.
Qed.

Lemma length_entities_on_ticks (layer : string) (p : Params R) (l : list R) :
  List.length (entities_on layer (flat_map (station_tick p) l))
  = ((if String.eqb "CENTER" layer then List.length l else 0)
     + (if String.eqb "NOTES" layer then List.length l else 0))%nat.
Proof.
  unfold entities_on. induction l as [| y l IH];
    cbn [flat_map station_tick tick_line tick_label app filter layer_of].
  - now destruct (String.eqb "CENTER" layer), (String.eqb "NOTES" layer).
  - cbn [List.length].
    destruct (String.eqb "CENTER" layer), (String.eqb "NOTES" layer);
      cbn [List.length]; rewrite IH; lia.
Qed.

Lemma length_ticks (p : Params R) (l : list R) :
  List.length (flat_map (station_tick p) l) = (2 * List.length l)%nat.
Proof. induction l as [| y l IH]; cbn; [reflexivity | rewrite IH; lia]. Qed.

Lemma length_entities_on_drawing (layer : string) (p : Params R) (first last : point R) :
  List.length (entities_on layer (drawing p first last))
  = ((if String.eqb "OUTLINE" layer then 6 else 0)
     + (if String.eqb "HOLES_L" layer then List.length (stations p) else 0)
     + (if String.eqb "HOLES_R" layer then List.length (stations p) else 0)
     + (if String.eqb "CENTER" layer then 40 + List.length (stations p) else 0)
     + (if String.eqb "NOTES" layer then List.length (stations p) + 3 else 0))%nat.
Proof.
  unfold drawing, bending_line.
  unfold entities_on at 1. rewrite !filter_app, !length_app.
  fold (entities_on layer (flat_map (station_tick p) (stations p))).
  rewrite length_entities_on_ticks.
  rewrite (length_filter_map _ (left_hole p) (String.eqb "HOLES_L" layer)) by reflexivity.
  rewrite (length_filter_map _ (right_hole p) (String.eqb "HOLES_R" layer)) by reflexivity.
  rewrite (length_filter_map _ (dash _ _ "CENTER") (String.eqb "CENTER" layer)) by reflexivity.
  change (List.length (alternate true (range segs))) with 40%nat.
  unfold outline, notes. cbn [filter layer_of].
  destruct (String.eqb "OUTLINE" layer), (String.eqb "HOLES_L" layer),
    (String.eqb "HOLES_R" layer), (String.eqb "CENTER" layer),
    (String.eqb "NOTES" layer); cbn [List.length]; lia.
Qed.

Lemma length_drawing (p : Params R) (first last : point R) :
  List.length (drawing p first last) = (4 * List.length (stations p) + 49)%nat.
Proof.
  unfold drawing, bending_line. rewrite !length_app, !length_map, length_ticks.
  change (List.length (alternate true (range segs))) with 40%nat.
  cbn [outline notes List.length]. lia.
Qed.

Lemma drawing_on_script_layers (p : Params R) (first last : point R) :
  Forall (fun e => In (layer_of e) (map fst script_layers)) (drawing p first last).
Proof.
  unfold drawing, bending_line. repeat rewrite Forall_app. repeat split.
  - unfold outline. repeat constructor; cbn; tauto.
  - apply Forall_map, Forall_forall. intros y _. cbn. tauto.
  - apply Forall_map, Forall_forall. intros y _. cbn. tauto.
  - apply Forall_map, Forall_forall. intros i _. cbn. tauto.
  - repeat constructor; cbn; tauto.
  - apply Forall_flat_map, Forall_forall. intros y _.
    unfold station_tick. repeat constructor; cbn; tauto.
  - unfold notes. repeat constructor; cbn; tauto.
Qed.

Lemma ticks_drawn_on_script_layers (p : Params R) (l : list R) :
  Forall (fun e => In (layer_of e) (map fst script_layers)) (ticks_drawn p l).
Proof.
  induction l as [| y l IH]; cbn [ticks_drawn]; [constructor |].
  destruct (format_int y); repeat constructor; cbn; tauto || exact IH.
Qed.

Lemma drawn_on_script_layers (p : Params R) (first last : point R) :
  Forall (fun e => In (layer_of e) (map fst script_layers)) (drawn p first last).
Proof.
  unfold drawn, bending_line. repeat rewrite Forall_app. repeat split.
  - unfold outline. repeat constructor; cbn; tauto.
  - apply Forall_map, Forall_forall. intros y _. cbn. tauto.
  - apply Forall_map, Forall_forall. intros y _. cbn. tauto.
  - apply Forall_map, Forall_forall. intros i _. cbn. tauto.
  - repeat constructor; cbn; tauto.
  - apply ticks_drawn_on_script_layers.
  - destruct (ticks_outcome (stations p)); [| constructor].
    unfold notes. repeat constructor; cbn; tauto.
Qed.

Lemma lines_on_app (layer : string) (es1 es2 : list (entity R)) :
  lines_on layer (es1 ++ es2) = lines_on layer es1 ++ lines_on layer es2.
Proof.
  induction es1 as [| e es1 IH]; [reflexivity |].
  destruct e; cbn; auto. destruct (String.eqb layer0 layer); cbn; congruence.
Qed.

Lemma lines_on_circles (layer : string) (f : R -> entity R) (l : list R) :
  (forall y, exists c r l', f y = Circle c r l') ->
  lines_on layer (map f l) = [].
Proof.
  intros Hf. induction l as [| y l IH]; [reflexivity |].
  cbn [map]. destruct (Hf y) as (c & r & l' & ->). exact IH.
Qed.

Lemma lines_on_ticks (p : Params R) (l : list R) :
  lines_on "CENTER" (flat_map (station_tick p) l)
  = map (fun y => (Vec2.mk (left_x p - lit 8) y, Vec2.mk (left_x p) y)) l.
Proof. induction l as [| y l IH]; cbn; [reflexivity | now rewrite IH]. Qed.

Lemma lines_on_center_drawing (p : Params R) (first last : point R) :
  lines_on "CENTER" (drawing p first last)
  = drawn_by_dashed_line (Vec2.mk (left_x p) (bending_line_y p))
                         (Vec2.mk (snd last) (bending_line_y p))
    ++ map (fun y => (Vec2.mk (left_x p - lit 8) y, Vec2.mk (left_x p) y)) (stations p).
Proof.
  unfold drawing, bending_line. rewrite !lines_on_app, lines_on_ticks.
  rewrite (lines_on_circles _ (left_hole p)) by (intros y; unfold left_hole; eauto).
  rewrite (lines_on_circles _ (right_hole p)) by (intros y; unfold right_hole; eauto).
  rewrite lines_on_dashes, drawn_by_dashed_line_eq, alternate_range_segs.
  change (lines_on "CENTER" (outline p first last)) with (@nil (Vec2.t R * Vec2.t R)).
  change (lines_on "CENTER" (notes p)) with (@nil (Vec2.t R * Vec2.t R)).
  cbn [lines_on app]. now rewrite !app_nil_r.
Qed.

Lemma texts_app (es1 es2 : list (entity R)) :
  texts (es1 ++ es2) = texts es1 ++ texts es2.
Proof.
  induction es1 as [| e es1 IH]; [reflexivity |].
  destruct e; cbn; congruence.
Qed.

Lemma texts_no_text (es : list (entity R)) :
  Forall (fun e => match e with Text _ _ _ _ => False | _ => True end) es ->
  texts es = [].
Proof.
  induction 1 as [| e es He _ IH]; [reflexivity |].
  destruct e; cbn; auto. contradiction.
Qed.

Lemma texts_ticks (p : Params R) (l : list R) :
  texts (flat_map (station_tick p) l)
  = map (fun y => (label y, Vec2.mk (left_x p - lit 40) (y - lit 3), lit 8)) l.
Proof. induction l as [| y l IH]; cbn; [reflexivity | now rewrite IH]. Qed.

Lemma texts_drawing (p : Params R) (first last : point R) :
  texts (drawing p first last)
  = ("Bending line"%string,
     Vec2.mk (left_x p + lit 10) (bending_line_y p + lit 12), txt_h p)
    :: map (fun y => (label y, Vec2.mk (left_x p - lit 40) (y - lit 3), lit 8))
           (stations p)
    ++ [ (String.append "Units: " (UNITS p),
          Vec2.mk (lit 10) (overall_len p + lit 40), lit 8);
         ("Development View"%string,
          Vec2.mk (lit 10) (overall_len p + lit 20), lit 10) ].
Proof.
  unfold drawing, bending_line. rewrite !texts_app, texts_ticks.
  rewrite (texts_no_text (map (left_hole p) _))
    by (apply Forall_map, Forall_forall; intros y _; exact I).
  rewrite (texts_no_text (map (right_hole p) _))
    by (apply Forall_map, Forall_forall; intros y _; exact I).
  rewrite (texts_no_text (map (dash _ _ _) _))
    by (apply Forall_map, Forall_forall; intros y _; exact I).
  reflexivity.
Qed.
(** What a run that stops in the loop over the stations has on CENTER and
    in its texts. *)
Lemma ticks_outcome_stops (pre post : list R) (y : R) (e : exn) :
  Forall (fun s => exists t, format_int s = Ok t) pre ->
  format_int y = Raise e ->
  ticks_outcome (pre ++ y :: post) = Raise e.
Proof.
  intros Hpre Hy. induction Hpre as [| s pre [t Hs] _ IH]; cbn [app ticks_outcome].
  - now rewrite Hy.
  - now rewrite Hs.
Qed.

Lemma ticks_drawn_stops (p : Params R) (pre post : list R) (y : R) (e : exn) :
  Forall (fun s => exists t, format_int s = Ok t) pre ->
  format_int y = Raise e ->
  ticks_drawn p (pre ++ y :: post) = flat_map (station_tick p) pre ++ [tick_line p y].
Proof.
  intros Hpre Hy.
  induction Hpre as [| s pre [t Hs] _ IH]; cbn [app ticks_drawn flat_map station_tick].
  - now rewrite Hy.
  - now rewrite Hs, IH.
Qed.

Lemma ticks_outcome_labels (l : list R) :
  ticks_outcome l = Ok tt -> Forall (fun y => format_int y = Ok (label y)) l.
Proof.
  induction l as [| y l IH]; cbn [ticks_outcome]; [constructor |].
  destruct (format_int y) as [s | e] eqn:Ey; [| discriminate].
  intros Hl. constructor; [| now apply IH].
  unfold label. now rewrite Ey.
Qed.
End CensusLemmas.

(** X7: every entity in the modelspace after a run lies on a layer that the
    run has registered in the layer table, whether the run completes or
    fails. *)
Theorem entities_on_registered_layers :
  forall (R : Type) (N : Number R) (p : Params R),
    Forall (fun e => has_layer (layer_of e) (snd (run p)) = true)
           (msp (snd (run p))).
Proof.
  intros R N p.
  destruct (right_edge_profile p) as [| first rest] eqn:Hp.
  - destruct (build_fails p Hp ezdxf_new) as [_ Hmsp].
    unfold run. rewrite Hmsp. constructor.
  - destruct (run_drawn p first rest Hp) as (last & _ & _ & Hmsp).
    rewrite Hmsp.
    eapply Forall_impl; [| apply drawn_on_script_layers].
    intros e He. apply in_map_iff in He as (nc & <- & Hnc).
    now apply run_has_script_layers.
Qed.

(** X8: a run that completes draws 4n + 49 entities for n stations: six on
    OUTLINE, n on HOLES_L, n on HOLES_R, 40 + n on CENTER and n + 3 on
    NOTES. *)
Theorem drawing_census :
  forall (R : Type) (N : Number R) (p : Params R),
    fst (run p) = Ok tt ->
    List.length (msp (snd (run p))) = (4 * List.length (stations p) + 49)%nat /\
    List.length (entities_on "OUTLINE" (msp (snd (run p)))) = 6%nat /\
    List.length (entities_on "HOLES_L" (msp (snd (run p)))) = List.length (stations p) /\
    List.length (entities_on "HOLES_R" (msp (snd (run p)))) = List.length (stations p) /\
    List.length (entities_on "CENTER" (msp (snd (run p)))) = (40 + List.length (stations p))%nat /\
    List.length (entities_on "NOTES" (msp (snd (run p)))) = (List.length (stations p) + 3)%nat.
Proof.
  intros R N p Hok.
  destruct (run_completes p Hok) as (first & rest & last & _ & _ & _ & Hmsp).
  rewrite Hmsp, length_drawing, !length_entities_on_drawing. cbn.
  repeat split; lia.
Qed.

Lemma drawing_census_witness :
  fst (run (R := float) default_params) = Ok tt /\
  List.length (msp (snd (run (R := float) default_params))) = 77%nat /\
  List.length (entities_on "OUTLINE" (msp (snd (run (R := float) default_params)))) = 6%nat /\
  List.length (entities_on "HOLES_L" (msp (snd (run (R := float) default_params)))) = 7%nat /\
  List.length (entities_on "HOLES_R" (msp (snd (run (R := float) default_params)))) = 7%nat /\
  List.length (entities_on "CENTER" (msp (snd (run (R := float) default_params)))) = 47%nat /\
  List.length (entities_on "NOTES" (msp (snd (run (R := float) default_params)))) = 10%nat.
Proof.
  split; [reflexivity |].
  exact (drawing_census float _ default_params eq_refl).
Defined.



(** X10: in a completed run the i-th left hole and the i-th right hole sit
    at the same height, the i-th station, and have the same radius. *)
Theorem holes_are_paired :
  forall (R : Type) (N : Number R) (p : Params R),
    right_edge_profile p <> [] ->
    map (fun c => Vec2.y (fst c)) (circles_on "HOLES_L" (msp (snd (run p))))
    = stations p /\
    map (fun c => Vec2.y (fst c)) (circles_on "HOLES_R" (msp (snd (run p))))
    = stations p /\
    map snd (circles_on "HOLES_L" (msp (snd (run p))))
    = map snd (circles_on "HOLES_R" (msp (snd (run p)))).
Proof.
  intros R N p Hne.
  destruct (right_edge_profile p) as [| first rest] eqn:Hp; [congruence |].
  destruct (run_drawn p first rest Hp) as (last & _ & _ & Hmsp).
  rewrite Hmsp, circles_on_drawn_left, circles_on_drawn_right.
  rewrite !map_map. cbn [fst snd Vec2.y]. rewrite map_id. auto.
Qed.

Lemma holes_are_paired_witness :
  right_edge_profile (R := float) default_params <> [] /\
  map (fun c => Vec2.y (fst c))
      (circles_on "HOLES_L" (msp (snd (run (R := float) default_params))))
  = stations default_params /\
  map (fun c => Vec2.y (fst c))
      (circles_on "HOLES_R" (msp (snd (run (R := float) default_params))))
  = stations default_params /\
  map snd (circles_on "HOLES_L" (msp (snd (run (R := float) default_params))))
  = map snd (circles_on "HOLES_R" (msp (snd (run (R := float) default_params)))).
Proof.
  split; [discriminate |].
  apply (holes_are_paired float _ default_params). discriminate.
Defined.

(** X11: the lines of a run that completes on CENTER are the 40 dashes of
    the bending line, drawn at height bending_line_y from left_x towards the
    offset of the last point the profile lists, followed by one tick per
    station, from (left_x - 8, y) to (left_x, y). *)
Theorem center_layer_lines :
  forall (R : Type) (N : Number R) (p : Params R),
    fst (run p) = Ok tt ->
    exists last : point R,
      index_last (right_edge_profile p) = Ok last /\
      lines_on "CENTER" (msp (snd (run p)))
      = drawn_by_dashed_line (Vec2.mk (left_x p) (bending_line_y p))
                             (Vec2.mk (snd last) (bending_line_y p))
        ++ map (fun y => (Vec2.mk (left_x p - lit 8)%num y, Vec2.mk (left_x p) y))
               (stations p).
Proof.
  intros R N p Hok.
  destruct (run_completes p Hok) as (first & rest & last & _ & Hlast & _ & Hmsp).
  exists last. split; [exact Hlast |].
  rewrite Hmsp. apply lines_on_center_drawing.
Qed.

Lemma center_layer_lines_witness :
  exists last : point float,
    index_last (right_edge_profile (R := float) default_params) = Ok last /\
    lines_on "CENTER" (msp (snd (run (R := float) default_params)))
    = drawn_by_dashed_line (Vec2.mk (lit 0) (lit 1385))
                           (Vec2.mk (snd last) (lit 1385))
      ++ map (fun y => (Vec2.mk (lit 0 - lit 8)%num y, Vec2.mk (lit 0) y))
             (stations default_params).
Proof.
  exact (center_layer_lines float _ default_params eq_refl).
Defined.

(** A station given as an integer is labelled with its decimal numeral
    (exact arithmetic). *)
Lemma format_int_lit (z : Z) :
  format_int (R := Q) (lit z) = Ok (NilZero.string_of_int (Z.to_int z)).
Proof. unfold format_int. cbn. now rewrite Z.quot_1_r. Qed.

(** X12: the texts of a run that completes are, in order, the label of the
    bending line at (left_x + 10, bending_line_y + 12) with height txt_h,
    one label per station at (left_x - 40, y - 3) with height 8 showing
    int(y), the units note and the title.  In exact arithmetic the label of
    an integer station is its decimal numeral, and a station that is not an
    integer is truncated towards zero. *)
Theorem drawing_texts :
  (forall (R : Type) (N : Number R) (p : Params R),
      fst (run p) = Ok tt ->
      Forall (fun y => format_int y = Ok (label y)) (stations p) /\
      texts (msp (snd (run p)))
      = ("Bending line"%string,
         Vec2.mk (left_x p + lit 10)%num (bending_line_y p + lit 12)%num, txt_h p)
        :: map (fun y => (label y,
                          Vec2.mk (left_x p - lit 40)%num (y - lit 3)%num, lit 8))
               (stations p)
        ++ [ (String.append "Units: " (UNITS p),
              Vec2.mk (lit 10) (overall_len p + lit 40)%num, lit 8);
             ("Development View"%string,
              Vec2.mk (lit 10) (overall_len p + lit 20)%num, lit 10) ])
  /\ (forall z : Z,
        format_int (R := Q) (lit z) = Ok (NilZero.string_of_int (Z.to_int z)))
  /\ format_int (R := Q) (3 # 2) = Ok "1"%string
  /\ format_int (R := Q) (- 3 # 2) = Ok "-1"%string
  /\ map format_int (stations (R := float) default_params)
     = map Ok ["55"; "285"; "515"; "835"; "1155"; "1385"; "1615"]%string.
Proof.
  split; [| split; [| split; [| split]]].
  - intros R N p Hok.
    destruct (run_completes p Hok) as (first & rest & last & _ & _ & Ht & Hmsp).
    split; [now apply ticks_outcome_labels |].
    rewrite Hmsp. apply texts_drawing.
  - exact format_int_lit.
  - reflexivity.
  - reflexivity.
  - reflexivity.
Qed.

Lemma drawing_texts_witness :
  List.length (texts (msp (snd (run (R := float) default_params)))) = 10%nat.
Proof.
  pose proof (proj1 drawing_texts float _ default_params) as W.
  rewrite (proj2 (W eq_refl)).
  reflexivity.
Defined.

(** ** When the station labels stop the run *)

Section StoppedRun.
Context {R : Type} {N : Number R}.
Local Open Scope num_scope.

Lemma ticks_outcome_completes (l : list R) :
  ticks_outcome l = Ok tt <-> Forall (fun y => exists s, format_int y = Ok s) l.
Proof.
  induction l as [| y l IH]; cbn [ticks_outcome].
  - split; [constructor | reflexivity].
  - destruct (format_int y) as [s | e] eqn:Ey.
    + rewrite IH. split.
      * intros Hl. constructor; [now exists s | exact Hl].
      * intros Hl. now inversion Hl.
    + split; [discriminate |].
      intros Hl. inversion Hl as [| ? ? [s Hs] _]. congruence.
Qed.

Lemma drawn_stops (p : Params R) (first last : point R)
    (pre post : list R) (y : R) (e : exn) :
  stations p = pre ++ y :: post ->
  Forall (fun s => exists t, format_int s = Ok t) pre ->
  format_int y = Raise e ->
  drawn p first last
  = outline p first last
    ++ map (left_hole p) (stations p)
    ++ map (right_hole p) (stations p)
    ++ bending_line p last
    ++ flat_map (station_tick p) pre ++ [tick_line p y].
Proof.
  intros Hs Hpre Hy. unfold drawn. rewrite Hs at 3 4.
  rewrite (ticks_drawn_stops p pre post y e Hpre Hy).
  rewrite (ticks_outcome_stops pre post y e Hpre Hy).
  now rewrite app_nil_r.
Qed.

Lemma lines_on_center_stopped (p : Params R) (first last : point R)
    (pre : list R) (y : R) :
  lines_on "CENTER"
    (outline p first last
     ++ map (left_hole p) (stations p)
     ++ map (right_hole p) (stations p)
     ++ bending_line p last
     ++ flat_map (station_tick p) pre ++ [tick_line p y])
  = drawn_by_dashed_line (Vec2.mk (left_x p) (bending_line_y p))
                         (Vec2.mk (snd last) (bending_line_y p))
    ++ map (fun y => (Vec2.mk (left_x p - lit 8) y, Vec2.mk (left_x p) y))
           (pre ++ [y]).
Proof.
  unfold bending_line. rewrite !lines_on_app, lines_on_ticks.
  rewrite (lines_on_circles _ (left_hole p)) by (intros s; unfold left_hole; eauto).
  rewrite (lines_on_circles _ (right_hole p)) by (intros s; unfold right_hole; eauto).
  rewrite lines_on_dashes, drawn_by_dashed_line_eq, alternate_range_segs.
  change (lines_on "CENTER" (outline p first last)) with (@nil (Vec2.t R * Vec2.t R)).
  rewrite map_app. cbn [lines_on app map tick_line String.eqb Ascii.eqb Bool.eqb].
  now rewrite !app_nil_r.
Qed.

Lemma texts_stopped (p : Params R) (first last : point R)
    (pre : list R) (y : R) :
  texts
    (outline p first last
     ++ map (left_hole p) (stations p)
     ++ map (right_hole p) (stations p)
     ++ bending_line p last
     ++ flat_map (station_tick p) pre ++ [tick_line p y])
  = ("Bending line"%string,
     Vec2.mk (left_x p + lit 10) (bending_line_y p + lit 12), txt_h p)
    :: map (fun y => (label y, Vec2.mk (left_x p - lit 40) (y - lit 3), lit 8)) pre.
Proof.
  unfold bending_line. rewrite !texts_app, texts_ticks.
  rewrite (texts_no_text (map (left_hole p) _))
    by (apply Forall_map, Forall_forall; intros s _; exact I).
  rewrite (texts_no_text (map (right_hole p) _))
    by (apply Forall_map, Forall_forall; intros s _; exact I).
  rewrite (texts_no_text (map (dash _ _ _) _))
    by (apply Forall_map, Forall_forall; intros s _; exact I).
  cbn. now rewrite app_nil_r.
Qed.
End StoppedRun.

(** X16: when the profile has a point and [int(y)] raises at a station y,
    all stations before it being accepted, the run ends with that
    exception after the tick of y is drawn: CENTER carries the 40 dashes
    and the ticks of the stations up to and including y, the texts are the
    label of the bending line and the labels of the stations before y, and
    neither the label of y nor any later tick, label or note is drawn. *)
Theorem run_stops_at_station :
  forall (R : Type) (N : Number R) (p : Params R)
         (pre post : list R) (y : R) (e : exn),
    right_edge_profile p <> [] ->
    stations p = pre ++ y :: post ->
    Forall (fun s => exists t, format_int s = Ok t) pre ->
    format_int y = Raise e ->
    exists last : point R,
      index_last (right_edge_profile p) = Ok last /\
      fst (run p) = Raise e /\
      lines_on "CENTER" (msp (snd (run p)))
      = drawn_by_dashed_line (Vec2.mk (left_x p) (bending_line_y p))
                             (Vec2.mk (snd last) (bending_line_y p))
        ++ map (fun y => (Vec2.mk (left_x p - lit 8)%num y, Vec2.mk (left_x p) y))
               (pre ++ [y]) /\
      texts (msp (snd (run p)))
      = ("Bending line"%string,
         Vec2.mk (left_x p + lit 10)%num (bending_line_y p + lit 12)%num, txt_h p)
        :: map (fun y => (label y,
                          Vec2.mk (left_x p - lit 40)%num (y - lit 3)%num, lit 8))
               pre.
Proof.
  intros R N p pre post y e Hp Hs Hpre Hy.
  destruct (right_edge_profile p) as [| first rest] eqn:Ep; [contradiction |].
  destruct (run_drawn p first rest Ep) as (last & Hlast & Hr & Hmsp).
  exists last. rewrite Ep in Hlast. split; [exact Hlast |].
  rewrite Hr, Hmsp, (drawn_stops p first last pre post y e Hs Hpre Hy). split.
  - rewrite Hs. now apply ticks_outcome_stops.
  - split; [apply lines_on_center_stopped | apply texts_stopped].
Qed.

Lemma run_stops_at_station_witness :
  exists last : point float,
    index_last (right_edge_profile
                  (with_stations [lit 55; PrimFloat.nan; lit 515]
                     (default_params (R := float)))) = Ok last /\
    fst (run (with_stations [lit 55; PrimFloat.nan; lit 515]
                (default_params (R := float)))) = Raise ValueError /\
    lines_on "CENTER"
      (msp (snd (run (with_stations [lit 55; PrimFloat.nan; lit 515]
                       (default_params (R := float))))))
    = drawn_by_dashed_line (Vec2.mk (lit 0) (lit 1385))
                           (Vec2.mk (snd last) (lit 1385))
      ++ map (fun y => (Vec2.mk (lit 0 - lit 8)%num y, Vec2.mk (lit 0) y))
             ([lit 55] ++ [PrimFloat.nan]) /\
    texts
      (msp (snd (run (with_stations [lit 55; PrimFloat.nan; lit 515]
                       (default_params (R := float))))))
    = ("Bending line"%string,
       Vec2.mk (lit 0 + lit 10)%num (lit 1385 + lit 12)%num, lit 10)
      :: map (fun y => (label y,
                        Vec2.mk (lit 0 - lit 40)%num (y - lit 3)%num, lit 8))
             [lit 55].
Proof.
  pose proof (run_stops_at_station float _
                (with_stations [lit 55; PrimFloat.nan; lit 515] default_params)
                [lit 55] [lit 515] PrimFloat.nan ValueError) as W.
  apply W.
  - discriminate.
  - reflexivity.
  - constructor; [| constructor]. now exists "55"%string.
  - reflexivity.
Defined.

(** X17: a run completes exactly when the profile has a point and [int]
    accepts every station; it then returns nothing and the labels are the
    texts int(y) produces.  In exact arithmetic [int] accepts every
    number, so the empty profile is the only way a run fails. *)
Theorem run_completes_iff :
  (forall (R : Type) (N : Number R) (p : Params R),
      fst (run p) = Ok tt <->
      right_edge_profile p <> [] /\
      Forall (fun y => exists s, format_int y = Ok s) (stations p))
  /\ (forall p : Params Q,
        fst (run p) = Ok tt <-> right_edge_profile p <> []).
Proof.
  assert (G : forall (R : Type) (N : Number R) (p : Params R),
      fst (run p) = Ok tt <->
      right_edge_profile p <> [] /\
      Forall (fun y => exists s, format_int y = Ok s) (stations p)).
  { intros R N p. split.
    - intros Hok.
      destruct (run_completes p Hok) as (first & rest & last & Hp & _ & Ht & _).
      split; [rewrite Hp; discriminate | now apply ticks_outcome_completes].
    - intros [Hp Hs].
      destruct (right_edge_profile p) as [| first rest] eqn:Ep; [contradiction |].
      destruct (run_drawn p first rest Ep) as (last & _ & Hr & _).
      rewrite Hr. now apply ticks_outcome_completes. }
  split; [exact G |].
  intros p. rewrite G. split; [tauto |].
  intros Hp. split; [exact Hp |].
  apply Forall_forall. intros y _. unfold format_int. cbn. eauto.
Qed.


(** ** The dashed line in exact arithmetic *)

Lemma parameter_in_unit (i : Z) :
  (0 <= i <= segs)%Z -> 0 <= (lit i / lit segs)%num /\ (lit i / lit segs)%num <= 1.
Proof.
  intros Hi. cbn. unfold segs in *.
  assert (H0 : inject_Z 0 <= inject_Z i) by (rewrite <- Zle_Qle; lia).
  assert (H1 : inject_Z i <= inject_Z 80) by (rewrite <- Zle_Qle; lia).
  change (inject_Z 0) with 0 in H0.
  assert (Hpos : 0 < inject_Z 80) by reflexivity.
  split.
  - apply Qle_shift_div_l; [exact Hpos | lra].
  - apply Qle_shift_div_r; [exact Hpos | lra].
Qed.

Lemma lerp_between (a b t : Q) :
  0 <= t -> t <= 1 -> Qbetween a (a + (b - a) * t) b.
Proof.
  intros H0 H1. destruct (Qlt_le_dec b a); [right | left]; split; nra.
Qed.

(** X13: in exact arithmetic, for every pair of end points, each drawn dash
    covers one eightieth of the way from P1 to P2: its end minus its start
    is (P2 - P1)/80 in both coordinates, so all dashes have the same length,
    |P2 - P1|/80. *)
Theorem dash_covers_one_interval :
  forall p1 p2 : Vec2.t Q,
    Forall (fun ab =>
              Vec2.x (snd ab) - Vec2.x (fst ab) == (Vec2.x p2 - Vec2.x p1) / 80 /\
              Vec2.y (snd ab) - Vec2.y (fst ab) == (Vec2.y p2 - Vec2.y p1) / 80 /\
              sq_length ab * (80 * 80) == sq_length (p1, p2))
           (drawn_by_dashed_line p1 p2).
Proof.
  intros p1 p2. rewrite drawn_by_dashed_line_eq.
  apply Forall_forall. intros ab Hab.
  apply in_map_iff in Hab as (i & <- & _).
  cbn. unfold segs. rewrite inject_Z_plus.
  change (inject_Z 80) with 80. change (inject_Z 1) with 1.
  repeat split; field.
Qed.

(** X14: in exact arithmetic every end point of every drawn dash lies in the
    box spanned by P1 and P2; in particular a dashed line between two points
    of the same height, as the bending line is, stays at that height. *)
Theorem dashes_stay_between_end_points :
  (forall p1 p2 : Vec2.t Q,
      Forall (fun ab =>
                Qbetween (Vec2.x p1) (Vec2.x (fst ab)) (Vec2.x p2) /\
                Qbetween (Vec2.y p1) (Vec2.y (fst ab)) (Vec2.y p2) /\
                Qbetween (Vec2.x p1) (Vec2.x (snd ab)) (Vec2.x p2) /\
                Qbetween (Vec2.y p1) (Vec2.y (snd ab)) (Vec2.y p2))
             (drawn_by_dashed_line p1 p2))
  /\ (forall p1 p2 : Vec2.t Q,
        Vec2.y p1 == Vec2.y p2 ->
        Forall (fun ab => Vec2.y (fst ab) == Vec2.y p1 /\ Vec2.y (snd ab) == Vec2.y p1)
               (drawn_by_dashed_line p1 p2)).
Proof.
  assert (Hbox : forall p1 p2 : Vec2.t Q,
      Forall (fun ab =>
                Qbetween (Vec2.x p1) (Vec2.x (fst ab)) (Vec2.x p2) /\
                Qbetween (Vec2.y p1) (Vec2.y (fst ab)) (Vec2.y p2) /\
                Qbetween (Vec2.x p1) (Vec2.x (snd ab)) (Vec2.x p2) /\
                Qbetween (Vec2.y p1) (Vec2.y (snd ab)) (Vec2.y p2))
             (drawn_by_dashed_line p1 p2)).
  { intros p1 p2. rewrite drawn_by_dashed_line_eq.
    apply Forall_forall. intros ab Hab.
    apply in_map_iff in Hab as (i & <- & Hi).
    apply in_map_iff in Hi as (k & <- & Hk). apply In_range in Hk.
    destruct (parameter_in_unit (2 * k) ltac:(unfold segs; lia)) as [Ha0 Ha1].
    destruct (parameter_in_unit (2 * k + 1) ltac:(unfold segs; lia)) as [Hb0 Hb1].
    cbn [fst snd Vec2.lerp Vec2.x Vec2.y].
    repeat split; now apply lerp_between. }
  split; [exact Hbox |].
  intros p1 p2 Ey. eapply Forall_impl; [| apply (Hbox p1 p2)].
  intros ab (_ & Ha & _ & Hb). unfold Qbetween in Ha, Hb. split; lra.
Qed.

Lemma dashes_stay_between_end_points_witness :
  Forall (fun ab => Vec2.y (fst ab) == 1385 /\ Vec2.y (snd ab) == 1385)
         (drawn_by_dashed_line (R := Q) (Vec2.mk 0 1385) (Vec2.mk 345 1385)).
Proof.
  apply (proj2 dashes_stay_between_end_points (Vec2.mk 0 1385) (Vec2.mk 345 1385)).
  reflexivity.
Defined.

(** X15: on any document and for any layer, [dashed_line] cannot raise; it
    appends exactly 40 lines, all on the requested layer, after what the
    modelspace already holds, and leaves the layer table alone. *)
Theorem dashed_line_appends_lines :
  forall (R : Type) (N : Number R) (p1 p2 : Vec2.t R) (layer : string) (d : Doc R),
    fst (dashed_line p1 p2 layer d) = Ok tt /\
    layers (snd (dashed_line p1 p2 layer d)) = layers d /\
    exists es,
      msp (snd (dashed_line p1 p2 layer d)) = msp d ++ es /\
      List.length es = 40%nat /\
      Forall (fun e => exists a b, e = Line a b layer) es.
Proof.
  intros R N p1 p2 layer d.
  destruct (draws_dashed_line p1 p2 layer d) as [Hok Hmsp].
  split; [exact Hok |]. split; [apply keeps_layers_dashed_line |].
  exists (map (dash p1 p2 layer) (alternate true (range segs))).
  split; [exact Hmsp |]. split; [now rewrite length_map |].
  apply Forall_map, Forall_forall. intros i _. unfold dash. eauto.
Qed.

